(** * A shallow embedding of the 3-body physics core

    The development follows the two source classes: [MathUtils] (vector
    arithmetic, energy bookkeeping, the RK4 stepper) and [PhysicsEngine]
    (body registry, spatial hash, force model, integrators, collision
    resolver, energy tracker), and the preset loader [Presets] that drives
    the engine.  The two sums of [MathUtils] whose value depends on the
    rounding of each addition, [totalEnergy] and [totalAngularMomentum],
    are embedded a second time on binary64 numbers (module [Double]).

    Numbers.  A JavaScript number is idealised as a real number or NaN; the
    value [undefined] is kept apart because the code produces it when it
    reads a property an object does not have.  Rounding, overflow, signed
    zeros and the two infinities are not represented: a quotient whose
    divisor is zero is NaN in the model (JavaScript gives an infinity or
    NaN); the divisors of the force law are logged so that statements about
    division by zero are made on the log, not on that convention.
    Statements that rounding decides (whether a sum depends on the order of
    its terms) are made on the binary64 embedding. *)

From Stdlib Require Import Reals Lra Lia ZArith List String Permutation.
From Stdlib Require Floats.
From stdpp Require Import base list.
Import ListNotations.

(** ** JavaScript values *)

Inductive val : Type :=
| Num (r : R)
| NaN
| Undefined.

Declare Scope js_scope.
Delimit Scope js_scope with js.
Bind Scope js_scope with val.

Definition lift2 (op : R -> R -> R) (a b : val) : val :=
  match a, b with
  | Num x, Num y => Num (op x y)
  | _, _ => NaN
  end.

Definition jadd : val -> val -> val := lift2 Rplus.
Definition jsub : val -> val -> val := lift2 Rminus.
Definition jmul : val -> val -> val := lift2 Rmult.

Definition jdiv (a b : val) : val :=
  match a, b with
  | Num x, Num y => if Req_dec_T y 0 then NaN else Num (x / y)
  | _, _ => NaN
  end.

Definition jneg (a : val) : val :=
  match a with
  | Num x => Num (- x)
  | _ => NaN
  end.

Infix "+" := jadd : js_scope.
Infix "-" := jsub : js_scope.
Infix "*" := jmul : js_scope.
Infix "/" := jdiv : js_scope.
Notation "- a" := (jneg a) : js_scope.

(** [a < b], [a <= b], [a > b]: false as soon as a side is not a number. *)
Definition jlt (a b : val) : bool :=
  match a, b with
  | Num x, Num y => if Rlt_dec x y then true else false
  | _, _ => false
  end.

Definition jle (a b : val) : bool :=
  match a, b with
  | Num x, Num y => if Rle_dec x y then true else false
  | _, _ => false
  end.

Definition jgt (a b : val) : bool := jlt b a.

(** [a === b] *)
Definition jeq (a b : val) : bool :=
  match a, b with
  | Num x, Num y => if Req_dec_T x y then true else false
  | Undefined, Undefined => true
  | _, _ => false
  end.

Module Math.

Definition sqrt (a : val) : val :=
  match a with
  | Num x => if Rle_dec 0 x then Num (R_sqrt.sqrt x) else NaN
  | _ => NaN
  end.

Definition abs (a : val) : val :=
  match a with
  | Num x => Num (Rabs x)
  | _ => NaN
  end.

Definition max (a b : val) : val := lift2 Rmax a b.
Definition min (a b : val) : val := lift2 Rmin a b.

(** [Math.pow(a, 1/3)], the only use of [Math.pow] in the engine. *)
Definition pow_third (a : val) : val :=
  match a with
  | Num x =>
      if Rlt_dec 0 x then Num (Rpower x (1 / 3))
      else if Req_dec_T x 0 then Num 0 else NaN
  | _ => NaN
  end.

Definition sin (a : val) : val :=
  match a with
  | Num x => Num (Rtrigo_def.sin x)
  | _ => NaN
  end.

Definition cos (a : val) : val :=
  match a with
  | Num x => Num (Rtrigo_def.cos x)
  | _ => NaN
  end.

(** [Math.acos] is NaN outside [-1, 1]. *)
Definition acos (a : val) : val :=
  match a with
  | Num x =>
      if Rle_dec (-1) x then if Rle_dec x 1 then Num (Ratan.acos x) else NaN
      else NaN
  | _ => NaN
  end.

End Math.

(** ** Objects: [{x, y, z}] records and arrays *)

Record vec : Type := mkVec { vx : val; vy : val; vz : val }.

Inductive obj : Type :=
| OVec (v : vec)
| OArr (l : list val).

Coercion OVec : vec >-> obj.

(** Property reads [o.x], [o.y], [o.z]: an array has none of them. *)
Definition get_x (o : obj) : val :=
  match o with OVec v => vx v | OArr _ => Undefined end.
Definition get_y (o : obj) : val :=
  match o with OVec v => vy v | OArr _ => Undefined end.
Definition get_z (o : obj) : val :=
  match o with OVec v => vz v | OArr _ => Undefined end.

(** Index read [o[i]]: a record has no numeric key, an array none past its
    length. *)
Definition get_index (o : obj) (i : nat) : val :=
  match o with
  | OArr l => nth i l Undefined
  | OVec _ => Undefined
  end.

Definition vec_of (a b c : R) : vec := mkVec (Num a) (Num b) (Num c).
Definition zero_vec : vec := mkVec (Num 0) (Num 0) (Num 0).
Definition undefined_vec : vec := mkVec Undefined Undefined Undefined.
Definition nan_vec : vec := mkVec NaN NaN NaN.

(** ** Divisions with their divisors logged *)

(** A result together with the divisors of the divisions made on the way
    to it, in order. *)
Definition traced (A : Type) : Type := (A * list val)%type.

Definition tret {A} (a : A) : traced A := (a, []).

Definition tbind {A B} (m : traced A) (k : A -> traced B) : traced B :=
  let '(a, l1) := m in
  let '(b, l2) := k a in
  (b, l1 ++ l2).

Notation "x <-- m ;; k" := (tbind m (fun x => k))
  (at level 100, m at next level, right associativity).

(** [a / b], remembering [b]. *)
Definition divT (a b : val) : traced val := ((a / b)%js, [b]).

(** ** Bodies *)

Record Body : Type := mkBody {
  id : nat;
  mass : val;
  position : vec;
  velocity : vec;
  acceleration : vec;
  radius : val;
  trail : list vec;
  maxTrailLength : nat
}.

Definition set_acceleration (b : Body) (a : vec) : Body :=
  mkBody (id b) (mass b) (position b) (velocity b) a (radius b) (trail b)
         (maxTrailLength b).
Definition set_velocity (b : Body) (v : vec) : Body :=
  mkBody (id b) (mass b) (position b) v (acceleration b) (radius b) (trail b)
         (maxTrailLength b).
Definition set_position (b : Body) (p : vec) : Body :=
  mkBody (id b) (mass b) p (velocity b) (acceleration b) (radius b) (trail b)
         (maxTrailLength b).
Definition set_trail (b : Body) (t : list vec) : Body :=
  mkBody (id b) (mass b) (position b) (velocity b) (acceleration b) (radius b)
         t (maxTrailLength b).

(** ** MathUtils *)

Module MathUtils.

Local Open Scope js_scope.

(** [this.G] inside a static method is a property of the class itself.
    The source sets [G] on instances only (in the constructor) and never
    instantiates the class, so the read gives [undefined]. *)
Definition G : val := Undefined.

Definition add (v1 v2 : obj) : vec :=
  mkVec (get_x v1 + get_x v2) (get_y v1 + get_y v2) (get_z v1 + get_z v2).

(** A call [add(a, b, c)]: [add] has two formal parameters, the third
    actual is evaluated and dropped. *)
Definition add_3args (v1 v2 v3 : obj) : vec := add v1 v2.

Definition subtract (v1 v2 : obj) : vec :=
  mkVec (get_x v1 - get_x v2) (get_y v1 - get_y v2) (get_z v1 - get_z v2).

Definition multiply (v : obj) (scalar : val) : vec :=
  mkVec (get_x v * scalar) (get_y v * scalar) (get_z v * scalar).

Definition divideT (v : obj) (scalar : val) : traced vec :=
  x <-- divT (get_x v) scalar ;;
  y <-- divT (get_y v) scalar ;;
  z <-- divT (get_z v) scalar ;;
  tret (mkVec x y z).

Definition divide (v : obj) (scalar : val) : vec := fst (divideT v scalar).

Definition magnitude (v : obj) : val :=
  Math.sqrt (get_x v * get_x v + get_y v * get_y v + get_z v * get_z v).

Definition normalizeT (v : obj) : traced vec :=
  let mag := magnitude v in
  if jeq mag (Num 0) then tret zero_vec else divideT v mag.

Definition normalize (v : obj) : vec := fst (normalizeT v).

Definition dot (v1 v2 : obj) : val :=
  get_x v1 * get_x v2 + get_y v1 * get_y v2 + get_z v1 * get_z v2.

Definition cross (v1 v2 : obj) : vec :=
  mkVec (get_y v1 * get_z v2 - get_z v1 * get_y v2)
        (get_z v1 * get_x v2 - get_x v1 * get_z v2)
        (get_x v1 * get_y v2 - get_y v1 * get_x v2).

Definition distance (v1 v2 : obj) : val :=
  let dx := get_x v1 - get_x v2 in
  let dy := get_y v1 - get_y v2 in
  let dz := get_z v1 - get_z v2 in
  Math.sqrt (dx * dx + dy * dy + dz * dz).

Definition kineticEnergy (mass : val) (velocity : obj) : val :=
  let speed := magnitude velocity in
  Num 0.5 * mass * speed * speed.

Definition gravitationalPotentialEnergy (m1 m2 : val) (r1 r2 : obj) : val :=
  let distance := distance r1 r2 in
  if jeq distance (Num 0) then Num 0
  else - G * m1 * m2 / distance.

Definition angularMomentum (mass : val) (position velocity : obj) : vec :=
  cross position (multiply velocity mass).

(** The inner loop [for (j = i + 1; ...)] of [totalEnergy], for a fixed
    [bodies[i]] and the bodies after it. *)
Definition potentialRow (bi : Body) (rest : list Body) (acc : val) : val :=
  fold_left
    (fun acc bj =>
       acc + gravitationalPotentialEnergy (mass bi) (mass bj)
                                          (position bi) (position bj))
    rest acc.

Fixpoint potentialLoop (bodies : list Body) (acc : val) : val :=
  match bodies with
  | [] => acc
  | bi :: rest => potentialLoop rest (potentialRow bi rest acc)
  end.

Definition totalEnergy (bodies : list Body) : val :=
  let kinetic :=
    fold_left (fun acc body => acc + kineticEnergy (mass body) (velocity body))
              bodies (Num 0) in
  potentialLoop bodies kinetic.

Definition totalAngularMomentum (bodies : list Body) : vec :=
  fold_left
    (fun (acc : vec) body =>
       add acc (angularMomentum (mass body) (position body) (velocity body)))
    bodies zero_vec.

(** [rk4Step(f, t, y, h)].  The derivative function may change a state of
    type [S] on each call (the engine passes a method bound to itself). *)
Definition rk4Step {S : Type} (f : val -> obj -> S -> obj * S)
           (t : val) (y : obj) (h : val) (s : S) : vec * S :=
  let '(k1, s) := f t y s in
  let '(k2, s) := f (t + h / Num 2) (add y (multiply k1 (h / Num 2))) s in
  let '(k3, s) := f (t + h / Num 2) (add y (multiply k2 (h / Num 2))) s in
  let '(k4, s) := f (t + h) (add y (multiply k3 h)) s in
  (add y (multiply
            (add_3args k1 (multiply (add k2 k3) (Num 2)) k4)
            (h / Num 6)),
   s).

Definition verletStep (position velocity acceleration : obj) (dt : val) : vec :=
  add position
      (add (multiply velocity dt)
           (multiply acceleration (Num 0.5 * dt * dt))).

Definition clamp (value min max : val) : val :=
  Math.min (Math.max value min) max.

Definition distanceSquared (v1 v2 : obj) : val :=
  let dx := get_x v1 - get_x v2 in
  let dy := get_y v1 - get_y v2 in
  let dz := get_z v1 - get_z v2 in
  dx * dx + dy * dy + dz * dz.

Definition gravitationalForce (m1 m2 : val) (r1 r2 : obj) : vec :=
  let r := subtract r2 r1 in
  let distance := magnitude r in
  if jeq distance (Num 0) then zero_vec
  else
    let forceMagnitude := G * m1 * m2 / (distance * distance) in
    let forceDirection := normalize r in
    multiply forceDirection forceMagnitude.

(** [this.TWO_PI] in a static method: as [G], set on instances only. *)
Definition TWO_PI : val := Undefined.

Definition sphericalToCartesian (r theta phi : val) : vec :=
  mkVec (r * Math.sin theta * Math.cos phi)
        (r * Math.sin theta * Math.sin phi)
        (r * Math.cos theta).

(** [random(min, max)]; [u] is what [Math.random()] returns. *)
Definition random (u : val) (min max : val) : val :=
  u * (max - min) + min.

(** [randomVector(minMagnitude, maxMagnitude)]; [u1], [u2], [u3] are the
    three draws, in the order they are made. *)
Definition randomVector (u1 u2 u3 : val) (minMagnitude maxMagnitude : val) : vec :=
  let magnitude := random u1 minMagnitude maxMagnitude in
  let theta := random u2 (Num 0) TWO_PI in
  let phi := Math.acos (random u3 (Num (-1)) (Num 1)) in
  sphericalToCartesian magnitude phi theta.

(** Assignment [result[i] = v] on an array: past the end the array grows,
    and the places skipped read [undefined]. *)
Definition set_index (result : list val) (i : nat) (v : val) : list val :=
  if (i <? length result)%nat then <[i := v]> result
  else result ++ repeat Undefined (i - length result) ++ [v].

(** [addArrays(a, b, result)] and [multiplyArray(a, scalar, result)] write
    the first three places of the array [result] and return it.  Every place
    is read before it is written, so the model also covers a [result] that
    is the same array as [a] or [b]. *)
Definition addArrays (a b : obj) (result : list val) : list val :=
  let result := set_index result 0 (get_index a 0 + get_index b 0) in
  let result := set_index result 1 (get_index a 1 + get_index b 1) in
  set_index result 2 (get_index a 2 + get_index b 2).

Definition multiplyArray (a : obj) (scalar : val) (result : list val) : list val :=
  let result := set_index result 0 (get_index a 0 * scalar) in
  let result := set_index result 1 (get_index a 1 * scalar) in
  set_index result 2 (get_index a 2 * scalar).

Definition magnitudeArray (a : obj) : val :=
  Math.sqrt (get_index a 0 * get_index a 0 + get_index a 1 * get_index a 1
             + get_index a 2 * get_index a 2).

End MathUtils.

(** ** PhysicsEngine *)

(** A cell key is the string [`${x},${y},${z}`] of three floored quotients.
    It is represented by the triple it prints: an integer, or NaN when the
    quotient was not a number. *)
Inductive coord : Type :=
| CInt (z : Z)
| CNaN.

Definition cellkey : Type := (coord * coord * coord)%type.

#[global] Instance coord_eq_dec : EqDecision coord.
Proof. solve_decision. Defined.

(** [`${Math.floor(v)}`] *)
Definition floor_key (v : val) : coord :=
  match v with
  | Num r => CInt (Int_part r)
  | _ => CNaN
  end.

(** [Number(c) + d], printed again.  The sum is the integer sum, which is
    what the code computes for coordinates below 2^53 in absolute value;
    statements about the set of neighbours are made for that range. *)
Definition coord_shift (c : coord) (d : Z) : coord :=
  match c with
  | CInt z => CInt (z + d)
  | CNaN => CNaN
  end.

Record Stats : Type := mkStats {
  forceCalculations : nat;
  integrationSteps : nat;
  collisions : nat;
  energyError : val
}.

(** The spatial hash is a [Map] from cell key to an array of body
    references.  Keys are kept in insertion order, as a [Map] iterates them;
    a body reference is the body's index in [bodies] (every operation that
    changes the array rebuilds the hash before it is read again). *)
Definition hash : Type := list (cellkey * list nat).

Record Engine : Type := mkEngine {
  bodies : list Body;
  timeStep : val;
  timeScale : val;
  gravity : val;
  softening : val;
  integrationMethod : string;
  maxBodies : nat;
  spatialHash : hash;
  hashCellSize : val;
  initialEnergy : val;
  energyConservation : bool;
  collisionDetection : bool;
  collisionRadius : val;
  stats : Stats
}.

Definition set_bodies (e : Engine) (bs : list Body) : Engine :=
  mkEngine bs (timeStep e) (timeScale e) (gravity e) (softening e)
           (integrationMethod e) (maxBodies e) (spatialHash e) (hashCellSize e)
           (initialEnergy e) (energyConservation e) (collisionDetection e)
           (collisionRadius e) (stats e).
Definition set_timeScale (e : Engine) (s : val) : Engine :=
  mkEngine (bodies e) (timeStep e) s (gravity e) (softening e)
           (integrationMethod e) (maxBodies e) (spatialHash e) (hashCellSize e)
           (initialEnergy e) (energyConservation e) (collisionDetection e)
           (collisionRadius e) (stats e).
Definition set_integrationMethod (e : Engine) (m : string) : Engine :=
  mkEngine (bodies e) (timeStep e) (timeScale e) (gravity e) (softening e)
           m (maxBodies e) (spatialHash e) (hashCellSize e)
           (initialEnergy e) (energyConservation e) (collisionDetection e)
           (collisionRadius e) (stats e).
Definition set_spatialHash (e : Engine) (h : hash) : Engine :=
  mkEngine (bodies e) (timeStep e) (timeScale e) (gravity e) (softening e)
           (integrationMethod e) (maxBodies e) h (hashCellSize e)
           (initialEnergy e) (energyConservation e) (collisionDetection e)
           (collisionRadius e) (stats e).
Definition set_initialEnergy (e : Engine) (v : val) : Engine :=
  mkEngine (bodies e) (timeStep e) (timeScale e) (gravity e) (softening e)
           (integrationMethod e) (maxBodies e) (spatialHash e) (hashCellSize e)
           v (energyConservation e) (collisionDetection e)
           (collisionRadius e) (stats e).
Definition set_collisionDetection (e : Engine) (b : bool) : Engine :=
  mkEngine (bodies e) (timeStep e) (timeScale e) (gravity e) (softening e)
           (integrationMethod e) (maxBodies e) (spatialHash e) (hashCellSize e)
           (initialEnergy e) (energyConservation e) b
           (collisionRadius e) (stats e).
Definition set_stats (e : Engine) (s : Stats) : Engine :=
  mkEngine (bodies e) (timeStep e) (timeScale e) (gravity e) (softening e)
           (integrationMethod e) (maxBodies e) (spatialHash e) (hashCellSize e)
           (initialEnergy e) (energyConservation e) (collisionDetection e)
           (collisionRadius e) s.

Definition set_forceCalculations (s : Stats) (n : nat) : Stats :=
  mkStats n (integrationSteps s) (collisions s) (energyError s).
Definition set_integrationSteps (s : Stats) (n : nat) : Stats :=
  mkStats (forceCalculations s) n (collisions s) (energyError s).
Definition set_collisions (s : Stats) (n : nat) : Stats :=
  mkStats (forceCalculations s) (integrationSteps s) n (energyError s).
Definition set_energyError (s : Stats) (v : val) : Stats :=
  mkStats (forceCalculations s) (integrationSteps s) (collisions s) v.

Module PhysicsEngine.

Import MathUtils.
Local Open Scope js_scope.

Definition zero_stats : Stats := mkStats 0 0 0 (Num 0).

Definition constructor : Engine :=
  {| bodies := [];
     timeStep := Num 1 / Num 60;
     timeScale := Num 1;
     gravity := Num 6.67430e-11;
     softening := Num 1e-6;
     integrationMethod := "rk4";
     maxBodies := 1000;
     spatialHash := [];
     hashCellSize := Num 1000;
     initialEnergy := Num 0;
     energyConservation := true;
     collisionDetection := false;
     collisionRadius := Num 0.1;
     stats := zero_stats |}.

(** *** Spatial hash *)

Definition getCellKey (e : Engine) (position : obj) : cellkey :=
  (floor_key (get_x position / hashCellSize e),
   floor_key (get_y position / hashCellSize e),
   floor_key (get_z position / hashCellSize e)).

(** [this.spatialHash.get(cell)] *)
Fixpoint hash_get (h : hash) (cell : cellkey) : option (list nat) :=
  match h with
  | [] => None
  | (k, bucket) :: h' =>
      if decide (k = cell) then Some bucket else hash_get h' cell
  end.

(** [if (!has(cell)) set(cell, []); get(cell).push(body)] *)
Fixpoint hash_push (h : hash) (cell : cellkey) (body : nat) : hash :=
  match h with
  | [] => [(cell, [body])]
  | (k, bucket) :: h' =>
      if decide (k = cell) then (k, bucket ++ [body]) :: h'
      else (k, bucket) :: hash_push h' cell body
  end.

(** The loop of [updateSpatialHash]; [i] is the index of the head of
    [bs] in the engine's array. *)
Fixpoint rebuild (e : Engine) (bs : list Body) (i : nat) (h : hash) : hash :=
  match bs with
  | [] => h
  | body :: bs' => rebuild e bs' (S i) (hash_push h (getCellKey e (position body)) i)
  end.

Definition updateSpatialHash (e : Engine) : Engine :=
  set_spatialHash e (rebuild e (bodies e) 0 []).

Definition getNearbyCells (e : Engine) : list cellkey :=
  map fst (spatialHash e).

Definition offsets : list Z := [-1; 0; 1]%Z.

Definition getNeighboringCells (cell : cellkey) : list cellkey :=
  let '(x, y, z) := cell in
  flat_map (fun dx =>
    flat_map (fun dy =>
      flat_map (fun dz =>
        if ((dx =? 0) && (dy =? 0) && (dz =? 0))%Z then []
        else [(coord_shift x dx, coord_shift y dy, coord_shift z dz)])
        offsets)
      offsets)
    offsets.

(** *** Body registry *)

Definition calculateRadius (mass : val) : val :=
  Math.pow_third mass * Num 0.1.

(** [addBody(mass, position, velocity)]: [None] stands for the result
    [false].  Colour and type are display data and are left out. *)
Definition addBody (mass : val) (position velocity : vec) (e : Engine)
  : option nat * Engine :=
  if (maxBodies e <=? length (bodies e))%nat then (None, e)
  else
    let body :=
      {| id := length (bodies e);
         mass := mass;
         position := position;
         velocity := velocity;
         acceleration := zero_vec;
         radius := calculateRadius mass;
         trail := [];
         maxTrailLength := 200 |} in
    (Some (id body),
     updateSpatialHash (set_bodies e (bodies e ++ [body]))).

Definition removeBody (bodyId : nat) (e : Engine) : bool * Engine :=
  match list_find (fun body => id body = bodyId) (bodies e) with
  | Some (index, _) =>
      (true, updateSpatialHash (set_bodies e (delete index (bodies e))))
  | None => (false, e)
  end.

(** *** Force model *)

Definition incr_forceCalculations (e : Engine) : Engine :=
  set_stats e (set_forceCalculations (stats e) (S (forceCalculations (stats e)))).

(** [calculateForceBetween(body1, body2)] for the bodies referenced by
    [i] and [j], with the log of its divisors.  Each assignment reads the
    body again, so the two references may name one body.  A reference
    outside the array does not occur (the hash holds indices of [bodies]);
    the model returns the engine as it is. *)
Definition calculateForceBetweenT (e : Engine) (i j : nat) : traced Engine :=
  match bodies e !! i, bodies e !! j with
  | Some body1, Some body2 =>
      let r := subtract (position body2) (position body1) in
      let distance := magnitude r in
      if jlt distance (softening e) then tret e
      else
        forceMagnitude <--
          divT (gravity e * mass body1 * mass body2)
               (distance * distance + softening e * softening e) ;;
        forceDirection <-- normalizeT r ;;
        let force := multiply forceDirection forceMagnitude in
        a1 <-- divideT force (mass body1) ;;
        let e1 :=
          set_bodies e
            (alter (fun b => set_acceleration b (add (acceleration b) a1))
                   i (bodies e)) in
        s2 <-- divT (Num (-1)) (mass body2) ;;
        let e2 :=
          set_bodies e1
            (alter (fun b =>
                      set_acceleration b
                        (add (acceleration b) (multiply force s2)))
                   j (bodies e1)) in
        tret (incr_forceCalculations e2)
  | _, _ => tret e
  end.

Definition calculateForceBetween (e : Engine) (i j : nat) : Engine :=
  fst (calculateForceBetweenT e i j).

(** [for (i ...) for (j = i + 1 ...)] over one bucket. *)
Fixpoint forcesWithinCell (bodiesInCell : list nat) (e : Engine) : Engine :=
  match bodiesInCell with
  | [] => e
  | bi :: rest =>
      forcesWithinCell rest
        (fold_left (fun e bj => calculateForceBetween e bi bj) rest e)
  end.

(** [for (body1 of bodiesInCell) for (body2 of bodiesInNeighbor)] *)
Definition forcesBetweenCells (bodiesInCell bodiesInNeighbor : list nat)
           (e : Engine) : Engine :=
  fold_left
    (fun e body1 =>
       fold_left (fun e body2 => calculateForceBetween e body1 body2)
                 bodiesInNeighbor e)
    bodiesInCell e.

(** The body of [for (let cell of cells)]; the hash [h] is the engine's
    own, which the loop never changes. *)
Definition forcesForCell (h : hash) (e : Engine) (cell : cellkey) : Engine :=
  let bodiesInCell := default [] (hash_get h cell) in
  let e := forcesWithinCell bodiesInCell e in
  fold_left
    (fun e neighbor =>
       forcesBetweenCells bodiesInCell (default [] (hash_get h neighbor)) e)
    (getNeighboringCells cell) e.

Definition calculateForces (e : Engine) : Engine :=
  let e := set_stats e (set_forceCalculations (stats e) 0) in
  let e :=
    set_bodies e (map (fun body => set_acceleration body zero_vec) (bodies e)) in
  let cells := getNearbyCells e in
  fold_left (forcesForCell (spatialHash e)) cells e.

(** *** State vector and integrators *)

Definition getStateVector (e : Engine) : obj :=
  OArr (flat_map
          (fun body =>
             [vx (position body); vy (position body); vz (position body);
              vx (velocity body); vy (velocity body); vz (velocity body)])
          (bodies e)).

(** The loop of [setStateVector]; [index] is the running [index++]. *)
Fixpoint setStateVector_loop (state : obj) (index : nat) (bs : list Body)
  : list Body :=
  match bs with
  | [] => []
  | body :: bs' =>
      let p := mkVec (get_index state index)
                     (get_index state (index + 1))
                     (get_index state (index + 2)) in
      let v := mkVec (get_index state (index + 3))
                     (get_index state (index + 4))
                     (get_index state (index + 5)) in
      set_velocity (set_position body p) v
        :: setStateVector_loop state (index + 6) bs'
  end.

Definition setStateVector (state : obj) (e : Engine) : Engine :=
  set_bodies e (setStateVector_loop state 0 (bodies e)).

Definition derivativeFunction (t : val) (state : obj) (e : Engine)
  : obj * Engine :=
  let e := setStateVector state e in
  let e := calculateForces e in
  let derivative :=
    flat_map
      (fun body =>
         [vx (velocity body); vy (velocity body); vz (velocity body);
          vx (acceleration body); vy (acceleration body);
          vz (acceleration body)])
      (bodies e) in
  (OArr derivative, e).

Definition updateRK4 (dt : val) (e : Engine) : Engine :=
  let state := getStateVector e in
  let '(newState, e) := rk4Step derivativeFunction (Num 0) state dt e in
  setStateVector newState e.

Definition updateVerlet (dt : val) (e : Engine) : Engine :=
  set_bodies e
    (map (fun body =>
            let newPosition :=
              verletStep (position body) (velocity body) (acceleration body) dt in
            let newVelocity :=
              add (velocity body) (multiply (acceleration body) dt) in
            set_velocity (set_position body newPosition) newVelocity)
         (bodies e)).

Definition updateEuler (dt : val) (e : Engine) : Engine :=
  set_bodies e
    (map (fun body =>
            let body :=
              set_velocity body
                (add (velocity body) (multiply (acceleration body) dt)) in
            set_position body
              (add (position body) (multiply (velocity body) dt)))
         (bodies e)).

(** *** Trails *)

(** The trail keeps positions only; the [performance.now()] stamp stored
    with each point is left out. *)
Definition updateTrails (e : Engine) : Engine :=
  set_bodies e
    (map (fun body =>
            let t := trail body ++ [position body] in
            set_trail body (drop (length t - maxTrailLength body) t))
         (bodies e)).

(** *** Collisions *)

Definition resolveCollision (e : Engine) (i j : nat) : Engine :=
  match bodies e !! i, bodies e !! j with
  | Some body1, Some body2 =>
      let normal := normalize (subtract (position body2) (position body1)) in
      let relativeVelocity := subtract (velocity body2) (velocity body1) in
      let velocityAlongNormal := dot relativeVelocity normal in
      if jgt velocityAlongNormal (Num 0) then e
      else
        let restitution := Num 0.8 in
        let impulse := - (Num 1 + restitution) * velocityAlongNormal in
        let impulseVector := multiply normal impulse in
        let e1 :=
          set_bodies e
            (alter (fun b =>
                      set_velocity b
                        (add (velocity b)
                             (multiply impulseVector (Num (-1) / mass body1))))
                   i (bodies e)) in
        set_bodies e1
          (alter (fun b =>
                    set_velocity b
                      (add (velocity b)
                           (multiply impulseVector (Num 1 / mass body2))))
                 j (bodies e1))
  | _, _ => e
  end.

Definition incr_collisions (e : Engine) : Engine :=
  set_stats e (set_collisions (stats e) (S (collisions (stats e)))).

(** The body of the inner loop of [handleCollisions]. *)
Definition collidePair (i : nat) (e : Engine) (j : nat) : Engine :=
  match bodies e !! i, bodies e !! j with
  | Some body1, Some body2 =>
      let distance := distance (position body1) (position body2) in
      let collisionDistance := radius body1 + radius body2 in
      if jlt distance collisionDistance
      then incr_collisions (resolveCollision e i j)
      else e
  | _, _ => e
  end.

Definition handleCollisions (e : Engine) : Engine :=
  let e := set_stats e (set_collisions (stats e) 0) in
  let n := length (bodies e) in
  fold_left
    (fun e i => fold_left (collidePair i) (seq (S i) (n - S i)) e)
    (seq 0 n) e.

(** *** Energy tracking *)

Definition trackEnergyConservation (e : Engine) : Engine :=
  if negb (energyConservation e) then e
  else
    let currentEnergy := totalEnergy (bodies e) in
    if jeq (initialEnergy e) (Num 0)
    then set_initialEnergy e currentEnergy
    else
      set_stats e
        (set_energyError (stats e)
           (Math.abs (currentEnergy - initialEnergy e) / initialEnergy e)).

(** *** The tick *)

(** The [switch] of [update]: an unknown method name takes the default
    branch. *)
Definition integrate (dt : val) (e : Engine) : Engine :=
  if String.eqb (integrationMethod e) "rk4" then updateRK4 dt e
  else if String.eqb (integrationMethod e) "verlet" then updateVerlet dt e
  else if String.eqb (integrationMethod e) "euler" then updateEuler dt e
  else updateRK4 dt e.

Definition update (deltaTime : val) (e : Engine) : Engine :=
  let dt := deltaTime * timeScale e in
  if jle dt (Num 0) then e
  else
    let e :=
      set_stats e (set_integrationSteps (stats e)
                                        (S (integrationSteps (stats e)))) in
    let e := integrate dt e in
    let e := updateTrails e in
    let e := if collisionDetection e then handleCollisions e else e in
    let e := updateSpatialHash e in
    trackEnergyConservation e.

(** *** Configuration *)

Definition reset (e : Engine) : Engine :=
  set_stats (set_initialEnergy (set_spatialHash (set_bodies e []) [])
                               (Num 0))
            zero_stats.

Definition setIntegrationMethod (method : string) (e : Engine) : Engine :=
  if existsb (String.eqb method) ["rk4"; "verlet"; "euler"]%string
  then set_integrationMethod e method
  else e.

Definition setTimeScale (scale : val) (e : Engine) : Engine :=
  set_timeScale e (clamp scale (Num 0.01) (Num 100)).

Definition setCollisionDetection (enabled : bool) (e : Engine) : Engine :=
  set_collisionDetection e enabled.

(** *** Queries *)

Definition getBodies (e : Engine) : list Body := bodies e.

(** [getBody(id)]: [None] stands for [undefined]. *)
Definition getBody (bodyId : nat) (e : Engine) : option Body :=
  snd <$> list_find (fun body => id body = bodyId) (bodies e).

Record StatsView : Type := mkStatsView {
  view_stats : Stats;
  bodyCount : nat;
  view_totalEnergy : val;
  view_totalAngularMomentum : vec
}.

Definition getStats (e : Engine) : StatsView :=
  {| view_stats := stats e;
     bodyCount := length (bodies e);
     view_totalEnergy := totalEnergy (bodies e);
     view_totalAngularMomentum := totalAngularMomentum (bodies e) |}.

End PhysicsEngine.

(** ** Presets *)

(** The preset loader drives the engine of the simulation it was given.
    Its state is the name of the current preset ([None] for [null]) and
    that engine; buttons and colours are left out. *)
Module Presets.

Import PhysicsEngine.
Local Open Scope js_scope.

Definition loadFigure8 (e : Engine) : Engine :=
  let mass := Num 1 in
  let e := snd (addBody mass (vec_of (-1) 0 0) (vec_of 0 0.5 0) e) in
  let e := snd (addBody mass (vec_of 1 0 0) (vec_of 0 (-0.5) 0) e) in
  snd (addBody mass (vec_of 0 0 0) (vec_of 0 0 0) e).

Definition loadLagrange (e : Engine) : Engine :=
  let mass := Num 1 in
  let distance := Num 10 in
  let e := snd (addBody (mass * Num 2) (vec_of 0 0 0) (vec_of 0 0 0) e) in
  let e :=
    snd (addBody mass
           (mkVec distance (Num 0) (Num 0))
           (mkVec (Num 0) (Math.sqrt (Num 2 * mass * Num 2 / distance)) (Num 0))
           e) in
  snd (addBody mass
         (mkVec (- distance) (Num 0) (Num 0))
         (mkVec (Num 0) (- Math.sqrt (Num 2 * mass * Num 2 / distance)) (Num 0))
         e).

Definition loadChaos (e : Engine) : Engine :=
  let mass := Num 1 in
  let e := snd (addBody mass (vec_of (-2) 0 0) (vec_of 0 1 0) e) in
  let e := snd (addBody mass (vec_of 2 0 0) (vec_of 0 (-1) 0) e) in
  snd (addBody mass (vec_of 0 2 0) (vec_of (-1) 0 0) e).

Definition loadOrbit (e : Engine) : Engine :=
  let mass := Num 1 in
  let e := snd (addBody (mass * Num 3) (vec_of 0 0 0) (vec_of 0 0 0) e) in
  let e := snd (addBody mass (vec_of 8 0 0) (vec_of 0 2 0) e) in
  snd (addBody mass (vec_of (-6) 0 0) (vec_of 0 (-1.5) 0) e).

Definition loadPreset (presetName : string) (st : option string * Engine)
  : option string * Engine :=
  let e := reset (snd st) in
  (Some presetName,
   if String.eqb presetName "figure8" then loadFigure8 e
   else if String.eqb presetName "lagrange" then loadLagrange e
   else if String.eqb presetName "chaos" then loadChaos e
   else if String.eqb presetName "orbit" then loadOrbit e
   else e).

Definition reloadCurrentPreset (st : option string * Engine)
  : option string * Engine :=
  match fst st with
  | Some name => if String.eqb name "" then st else loadPreset name st
  | None => st
  end.

End Presets.

(** ** The conserved sums on binary64 numbers *)

(** [totalEnergy] and [totalAngularMomentum] with the helpers they call, on
    JavaScript's own numbers: IEEE 754 binary64 with round to nearest, ties
    to even, which Rocq's primitive floats compute exactly ([+], [-], [*],
    [/] and [sqrt] are the correctly rounded operations, [=?] is the
    comparison [===] on numbers: false on NaN, true on the two zeros).  A
    body is given by the fields the two functions read, and its id. *)
Module Double.

Import PrimFloat.
Local Open Scope float_scope.

Record vec : Type := mkVec { vx : float; vy : float; vz : float }.

Record Body : Type := mkBody {
  id : nat;
  mass : float;
  position : vec;
  velocity : vec
}.

(** [this.G] in a static method is [undefined] ([None]); an arithmetic
    operator converts it to NaN. *)
Definition G : option float := None.

Definition to_number (v : option float) : float :=
  match v with
  | Some x => x
  | None => nan
  end.

Definition add (v1 v2 : vec) : vec :=
  mkVec (vx v1 + vx v2) (vy v1 + vy v2) (vz v1 + vz v2).

Definition multiply (v : vec) (scalar : float) : vec :=
  mkVec (vx v * scalar) (vy v * scalar) (vz v * scalar).

Definition magnitude (v : vec) : float :=
  sqrt (vx v * vx v + vy v * vy v + vz v * vz v).

Definition cross (v1 v2 : vec) : vec :=
  mkVec (vy v1 * vz v2 - vz v1 * vy v2)
        (vz v1 * vx v2 - vx v1 * vz v2)
        (vx v1 * vy v2 - vy v1 * vx v2).

Definition distance (v1 v2 : vec) : float :=
  let dx := vx v1 - vx v2 in
  let dy := vy v1 - vy v2 in
  let dz := vz v1 - vz v2 in
  sqrt (dx * dx + dy * dy + dz * dz).

Definition kineticEnergy (mass : float) (velocity : vec) : float :=
  let speed := magnitude velocity in
  0.5 * mass * speed * speed.

Definition gravitationalPotentialEnergy (m1 m2 : float) (r1 r2 : vec) : float :=
  let distance := distance r1 r2 in
  if distance =? 0 then 0
  else - to_number G * m1 * m2 / distance.

Definition angularMomentum (mass : float) (position velocity : vec) : vec :=
  cross position (multiply velocity mass).

(** The inner loop [for (j = i + 1; ...)] of [totalEnergy]. *)
Definition potentialRow (bi : Body) (rest : list Body) (acc : float) : float :=
  fold_left
    (fun acc bj =>
       acc + gravitationalPotentialEnergy (mass bi) (mass bj)
                                          (position bi) (position bj))
    rest acc.

Fixpoint potentialLoop (bodies : list Body) (acc : float) : float :=
  match bodies with
  | [] => acc
  | bi :: rest => potentialLoop rest (potentialRow bi rest acc)
  end.

Definition totalEnergy (bodies : list Body) : float :=
  let kinetic :=
    fold_left (fun acc body => acc + kineticEnergy (mass body) (velocity body))
              bodies 0 in
  potentialLoop bodies kinetic.

Definition totalAngularMomentum (bodies : list Body) : vec :=
  fold_left
    (fun (acc : vec) body =>
       add acc (angularMomentum (mass body) (position body) (velocity body)))
    bodies (mkVec 0 0 0).

End Double.

(** * What the properties are stated with *)

Import MathUtils PhysicsEngine.

(** ** The classic RK4 formula *)

(** A derivative function without side effects, in the shape [rk4Step]
    takes. *)
Definition pure_derivative (f : val -> obj -> obj) : val -> obj -> unit -> obj * unit :=
  fun t y s => (f t y, s).

(** The step as the specification words it:
    [y + h/6 * (k1 + 2 k2 + 2 k3 + k4)]. *)
Definition rk4Step_spec (f : val -> obj -> obj) (t : val) (y : obj) (h : val) : vec :=
  let k1 := f t y in
  let k2 := f (t + h / Num 2)%js (add y (multiply k1 (h / Num 2)%js)) in
  let k3 := f (t + h / Num 2)%js (add y (multiply k2 (h / Num 2)%js)) in
  let k4 := f (t + h)%js (add y (multiply k3 h)) in
  add y (multiply
           (add (add (add k1 (multiply k2 (Num 2))) (multiply k3 (Num 2))) k4)
           (h / Num 6)%js).

(** ** The evaluation schedule of the force loop *)

(** The calls [calculateForceBetween(body1, body2)] that [calculateForces]
    makes, in order, read off the spatial hash [h]: [(i, j)] stands for the
    call on the bodies referenced by [i] and [j]. *)
Fixpoint intraPairs (bucket : list nat) : list (nat * nat) :=
  match bucket with
  | [] => []
  | bi :: rest => map (pair bi) rest ++ intraPairs rest
  end.

Definition crossPairs (bucket1 bucket2 : list nat) : list (nat * nat) :=
  flat_map (fun body1 => map (pair body1) bucket2) bucket1.

Definition cellPairs (h : hash) (cell : cellkey) : list (nat * nat) :=
  let bucket := default [] (hash_get h cell) in
  intraPairs bucket
  ++ flat_map (fun neighbor => crossPairs bucket (default [] (hash_get h neighbor)))
              (getNeighboringCells cell).

Definition forcePairs (h : hash) : list (nat * nat) :=
  flat_map (cellPairs h) (map fst h).

Definition applyPair (e : Engine) (p : nat * nat) : Engine :=
  calculateForceBetween e (fst p) (snd p).

(** How often [calculateForces] calls [calculateForceBetween] on the
    unordered pair [{i, j}]. *)
Definition evaluations (h : hash) (i j : nat) : nat :=
  (count_occ (fun p q : nat * nat => decide (p = q)) (forcePairs h) (i, j)
   + count_occ (fun p q : nat * nat => decide (p = q)) (forcePairs h) (j, i))%nat.

(** Body [x] is in the bucket of cell [k]. *)
Definition in_cell (h : hash) (k : cellkey) (x : nat) : Prop :=
  exists bucket, hash_get h k = Some bucket /\ In x bucket.

(** The engine [e] with bodies [bs] and force-evaluation counter [n]: the
    shape of the engine while [calculateForces] runs. *)
Definition with_forces (e : Engine) (bs : list Body) (n : nat) : Engine :=
  set_bodies (set_stats e (set_forceCalculations (stats e) n)) bs.

(** The acceleration the force law gives a body towards a unit mass at
    distance [d], with the constructor's [gravity] and [softening]. *)
Definition pull (d : R) : R := (6.67430e-11 / (d * d + 1e-6 * 1e-6))%R.

(** ** Energy terms and normal velocity *)

(** The potential terms in the order the double loop of [totalEnergy] adds
    them. *)
Fixpoint potentialTerms (bodies : list Body) : list val :=
  match bodies with
  | [] => []
  | bi :: rest =>
      map (fun bj => gravitationalPotentialEnergy (mass bi) (mass bj)
                                                  (position bi) (position bj))
          rest
      ++ potentialTerms rest
  end.

(** [velocityAlongNormal] as [resolveCollision] computes it for the bodies
    referenced by [i] and [j]. *)
Definition velocityAlongNormal (e : Engine) (i j : nat) : option val :=
  match bodies e !! i, bodies e !! j with
  | Some body1, Some body2 =>
      Some (dot (subtract (velocity body2) (velocity body1))
                (normalize (subtract (position body2) (position body1))))
  | _, _ => None
  end.

(** ** Properties of the registry and of the spatial hash *)

(** The six entries [getStateVector] writes for one body. *)
Definition components (body : Body) : list val :=
  [vx (position body); vy (position body); vz (position body);
   vx (velocity body); vy (velocity body); vz (velocity body)].

(** A run of [addBody] calls, one per triple of arguments. *)
Definition addBodies (args : list (val * vec * vec)) (e : Engine) : Engine :=
  fold_left (fun e a => snd (addBody (fst (fst a)) (snd (fst a)) (snd a) e)) args e.

(** The 26 offsets [(dx, dy, dz)] in the order [getNeighboringCells] goes
    through them. *)
Definition neighbour_offsets : list (Z * Z * Z) :=
  filter (fun d : Z * Z * Z =>
            negb ((fst (fst d) =? 0) && (snd (fst d) =? 0) && (snd d =? 0))%Z)
         (list_prod (list_prod offsets offsets) offsets).

(** Every body's id is its place in the array. *)
Definition ids_are_indices (e : Engine) : Prop :=
  map id (bodies e) = seq 0 (length (bodies e)).

(** The spatial hash is what [updateSpatialHash] would build now. *)
Definition hash_fresh (e : Engine) : Prop :=
  spatialHash e = spatialHash (updateSpatialHash e).

Definition valid_method (m : string) : Prop :=
  m = "rk4"%string \/ m = "verlet"%string \/ m = "euler"%string.

(** * Scenarios *)

(** ** The Figure-8 preset *)

Definition figure8_1 : Engine :=
  snd (addBody (Num 1) (vec_of (-1) 0 0) (vec_of 0 0.5 0) constructor).
Definition figure8_2 : Engine :=
  snd (addBody (Num 1) (vec_of 1 0 0) (vec_of 0 (-0.5) 0) figure8_1).
(** The engine as [loadFigure8] leaves it. *)
Definition figure8 : Engine :=
  snd (addBody (Num 1) (vec_of 0 0 0) (vec_of 0 0 0) figure8_2).

(** The three Figure-8 bodies as [addBody] creates them. *)
Definition figure8_body0 : Body :=
  mkBody 0 (Num 1) (vec_of (-1) 0 0) (vec_of 0 0.5 0) zero_vec
         (calculateRadius (Num 1)) [] 200.
Definition figure8_body1 : Body :=
  mkBody 1 (Num 1) (vec_of 1 0 0) (vec_of 0 (-0.5) 0) zero_vec
         (calculateRadius (Num 1)) [] 200.
Definition figure8_body2 : Body :=
  mkBody 2 (Num 1) (vec_of 0 0 0) (vec_of 0 0 0) zero_vec
         (calculateRadius (Num 1)) [] 200.

(** Figure-8 after [removeBody(0)], and after one more [addBody]. *)
Definition figure8_removed : Engine := snd (removeBody 0 figure8).
Definition figure8_readded : Engine :=
  snd (addBody (Num 1) (vec_of 3 0 0) (vec_of 0 0 0) figure8_removed).

(** Figure-8 after [setStateVector] with a state vector that puts the third
    body at x = 5000: the engine [derivativeFunction] hands to
    [calculateForces] for that state vector.  The spatial hash is still the
    one [addBody] built. *)
Definition figure8_moved : Engine :=
  setStateVector
    (OArr [Num (-1); Num 0; Num 0; Num 0; Num 0.5; Num 0;
           Num 1; Num 0; Num 0; Num 0; Num (-0.5); Num 0;
           Num 5000; Num 0; Num 0; Num 0; Num 0; Num 0])
    figure8.

(** ** Derivative functions *)

(** [f(t, y) = {x: t, y: 0, z: 0}] *)
Definition clock_derivative : val -> obj -> obj :=
  fun t _ => OVec (mkVec t (Num 0) (Num 0)).

(** [f(t, y) = {x: t === 1 ? 1000 : t, y: 0, z: 0}]: as [clock_derivative]
    but for the value at [t = 1], which only the fourth stage asks for. *)
Definition jump_derivative : val -> obj -> obj :=
  fun t _ => OVec (mkVec (if jeq t (Num 1) then Num 1000 else t) (Num 0) (Num 0)).

(** ** Small engines *)

(** Two unit masses at rest, one unit apart. *)
Definition two_at_rest : Engine :=
  snd (addBody (Num 1) (vec_of 1 0 0) (vec_of 0 0 0)
         (snd (addBody (Num 1) (vec_of 0 0 0) (vec_of 0 0 0) constructor))).
Definition two_at_rest_body0 : Body :=
  mkBody 0 (Num 1) (vec_of 0 0 0) (vec_of 0 0 0) zero_vec
         (calculateRadius (Num 1)) [] 200.
Definition two_at_rest_body1 : Body :=
  mkBody 1 (Num 1) (vec_of 1 0 0) (vec_of 0 0 0) zero_vec
         (calculateRadius (Num 1)) [] 200.

(** Two bodies added at one position. *)
Definition coincident : Engine :=
  snd (addBody (Num 1) (vec_of 1 2 3) (vec_of 0 0 0)
         (snd (addBody (Num 1) (vec_of 1 2 3) (vec_of 0 0 0) constructor))).

(** Two unit masses with overlapping radii, moving head-on along x, with
    collision detection switched on. *)
Definition head_on : Engine :=
  setCollisionDetection true
    (snd (addBody (Num 1) (vec_of 0.1 0 0) (vec_of (-1) 0 0)
            (snd (addBody (Num 1) (vec_of 0 0 0) (vec_of 1 0 0) constructor)))).
Definition head_on_body0 : Body :=
  mkBody 0 (Num 1) (vec_of 0 0 0) (vec_of 1 0 0) zero_vec
         (calculateRadius (Num 1)) [] 200.
Definition head_on_body1 : Body :=
  mkBody 1 (Num 1) (vec_of 0.1 0 0) (vec_of (-1) 0 0) zero_vec
         (calculateRadius (Num 1)) [] 200.


(** ** Bodies on binary64 numbers *)

Section DoubleScenarios.

Import PrimFloat.

(** The Figure-8 bodies. *)
Definition figure8_double : list Double.Body :=
  [Double.mkBody 0 1%float (Double.mkVec (-1)%float 0%float 0%float)
                 (Double.mkVec 0%float 0.5%float 0%float);
   Double.mkBody 1 1%float (Double.mkVec 1%float 0%float 0%float)
                 (Double.mkVec 0%float (-0.5)%float 0%float);
   Double.mkBody 2 1%float (Double.mkVec 0%float 0%float 0%float)
                 (Double.mkVec 0%float 0%float 0%float)].

(** Three bodies at one position with one velocity, of masses 2e16, 2
    and 2, listed with the heavy one first and with the heavy one last. *)
Definition heavy_body : Double.Body :=
  Double.mkBody 0 2e16%float (Double.mkVec 1%float 0%float 0%float)
                (Double.mkVec 0%float 1%float 0%float).
Definition light_body (i : nat) : Double.Body :=
  Double.mkBody i 2%float (Double.mkVec 1%float 0%float 0%float)
                (Double.mkVec 0%float 1%float 0%float).
Definition heavy_first : list Double.Body :=
  [heavy_body; light_body 1; light_body 2].
Definition heavy_last : list Double.Body :=
  [light_body 1; light_body 2; heavy_body].

End DoubleScenarios.
(** * Properties *)

(** ** Arithmetic on values *)

Lemma jdiv_Num (x y : R) : y <> 0%R -> (Num x / Num y)%js = Num (x / y).
Proof.
  intros Hy. unfold jdiv. destruct (Req_dec_T y 0); [contradiction | reflexivity].
Qed.

Lemma jlt_Num_true (x y : R) : (x < y)%R -> jlt (Num x) (Num y) = true.
Proof. intros H. unfold jlt. destruct (Rlt_dec x y); [reflexivity | contradiction]. Qed.

Lemma jlt_Num_false (x y : R) : (y <= x)%R -> jlt (Num x) (Num y) = false.
Proof. intros H. unfold jlt. destruct (Rlt_dec x y); [lra | reflexivity]. Qed.

Lemma jle_Num_true (x y : R) : (x <= y)%R -> jle (Num x) (Num y) = true.
Proof. intros H. unfold jle. destruct (Rle_dec x y); [reflexivity | contradiction]. Qed.

Lemma jle_Num_false (x y : R) : (y < x)%R -> jle (Num x) (Num y) = false.
Proof. intros H. unfold jle. destruct (Rle_dec x y); [lra | reflexivity]. Qed.

Lemma jeq_Num_true (x y : R) : x = y -> jeq (Num x) (Num y) = true.
Proof. intros H. unfold jeq. destruct (Req_dec_T x y); [reflexivity | contradiction]. Qed.

Lemma jeq_Num_false (x y : R) : x <> y -> jeq (Num x) (Num y) = false.
Proof. intros H. unfold jeq. destruct (Req_dec_T x y); [contradiction | reflexivity]. Qed.

Lemma sqrt_Num (x : R) : (0 <= x)%R -> Math.sqrt (Num x) = Num (sqrt x).
Proof.
  intros H. unfold Math.sqrt. destruct (Rle_dec 0 x); [reflexivity | contradiction].
Qed.

Lemma sqrt_of_square (x v : R) : (0 <= v)%R -> x = (v * v)%R -> sqrt x = v.
Proof. intros Hv ->. apply sqrt_square, Hv. Qed.

Lemma sum_squares_nonneg (a b c : R) : (0 <= a * a + b * b + c * c)%R.
Proof. nra. Qed.

Lemma magnitude_vec_of (a b c : R) :
  magnitude (vec_of a b c) = Num (sqrt (a * a + b * b + c * c)).
Proof.
  unfold magnitude. simpl. apply sqrt_Num, sum_squares_nonneg.
Qed.

Lemma distance_vec_of (a b c a' b' c' : R) :
  distance (vec_of a b c) (vec_of a' b' c') =
  Num (sqrt ((a - a') * (a - a') + (b - b') * (b - b') + (c - c') * (c - c'))).
Proof.
  unfold distance. simpl. apply sqrt_Num, sum_squares_nonneg.
Qed.

(** Decide the comparisons between explicit reals that block a
    computation. *)
Ltac decide_reals :=
  repeat match goal with
    | |- context [Req_dec_T ?a ?b] =>
        destruct (Req_dec_T a b);
        [ try (exfalso; lra) | try (exfalso; lra) ]
    | |- context [Rlt_dec ?a ?b] =>
        destruct (Rlt_dec a b);
        [ try (exfalso; lra) | try (exfalso; lra) ]
    | |- context [Rle_dec ?a ?b] =>
        destruct (Rle_dec a b);
        [ try (exfalso; lra) | try (exfalso; lra) ]
    end.

(** Close an equation between explicit records of numbers. *)
Ltac close_reals :=
  repeat match goal with
    | |- Num _ = Num _ => apply (f_equal Num); lra
    | |- @eq R _ _ => lra
    | |- _ => progress f_equal
    end.

(** ** Frame lemmas: what each operation leaves alone *)

Lemma bodies_updateSpatialHash (e : Engine) :
  bodies (updateSpatialHash e) = bodies e.
Proof. reflexivity. Qed.

Lemma bodies_trackEnergyConservation (e : Engine) :
  bodies (trackEnergyConservation e) = bodies e.
Proof.
  unfold trackEnergyConservation.
  destruct (negb (energyConservation e)); [reflexivity|].
  destruct (jeq (initialEnergy e) (Num 0)); reflexivity.
Qed.

(** ** Body registry *)

Lemma figure8_ids : map id (bodies figure8) = [0; 1; 2]%nat.
Proof. reflexivity. Qed.

(** C6: ids are not unique among live bodies.  After the three Figure-8
    bodies (ids 0, 1, 2), [removeBody(0)] succeeds and leaves ids 1 and 2;
    the next [addBody] takes [bodies.length = 2] as its id and returns it,
    while the body that already carries id 2 is still alive. *)
Theorem addBody_reuses_live_id :
  fst (removeBody 0 figure8) = true /\
  map id (bodies figure8_removed) = [1; 2]%nat /\
  fst (addBody (Num 1) (vec_of 3 0 0) (vec_of 0 0 0) figure8_removed) = Some 2%nat /\
  map id (bodies figure8_readded) = [1; 2; 2]%nat /\
  ~ NoDup (map id (bodies figure8_readded)).
Proof.
  assert (H : map id (bodies figure8_readded) = [1; 2; 2]%nat) by reflexivity.
  split; [reflexivity|]. split; [reflexivity|]. split; [reflexivity|].
  split; [exact H|].
  rewrite H. intros Hnd.
  inversion Hnd as [|x l Hx Hl]; subst.
  inversion Hl as [|y l' Hy Hl']; subst.
  apply Hy, list_elem_of_here.
Qed.

(** ** The RK4 stepper *)

(** The value [rk4Step] returns never mentions the fourth stage. *)
Lemma rk4Step_value (f : val -> obj -> obj) (t : val) (y : obj) (h : val) :
  fst (rk4Step (pure_derivative f) t y h tt) =
  let k1 := f t y in
  let k2 := f (t + h / Num 2)%js (add y (multiply k1 (h / Num 2)%js)) in
  let k3 := f (t + h / Num 2)%js (add y (multiply k2 (h / Num 2)%js)) in
  add y (multiply (add k1 (multiply (add k2 k3) (Num 2))) (h / Num 6)%js).
Proof. reflexivity. Qed.

(** C2: [rk4Step] does not return the classic weighted average.  For
    [f(t, y) = {x: t, y: 0, z: 0}], [t = 0], [y = 0] and [h = 1] the stages
    are k1 = 0, k2 = k3 = 1/2, k4 = 1 (in x): the code returns 1/3, the
    classic formula gives 1/2.  For a derivative that differs at the fourth
    stage only (k4 = 1000) the code still returns 1/3, where the classic
    formula gives 167: the returned value does not depend on k4. *)
Theorem rk4Step_drops_k4 :
  fst (rk4Step (pure_derivative clock_derivative) (Num 0) zero_vec (Num 1) tt)
    = vec_of (1 / 3) 0 0 /\
  rk4Step_spec clock_derivative (Num 0) zero_vec (Num 1) = vec_of (1 / 2) 0 0 /\
  fst (rk4Step (pure_derivative jump_derivative) (Num 0) zero_vec (Num 1) tt)
    = vec_of (1 / 3) 0 0 /\
  rk4Step_spec jump_derivative (Num 0) zero_vec (Num 1) = vec_of 167 0 0.
Proof.
  assert (Hhalf : jeq (Num 0 + Num 1 / Num 2) (Num 1) = false).
  { rewrite jdiv_Num by lra. apply jeq_Num_false. lra. }
  assert (Hone : jeq (Num 0 + Num 1) (Num 1) = true).
  { apply jeq_Num_true. lra. }
  assert (Hzero : jeq (Num 0) (Num 1) = false).
  { apply jeq_Num_false. lra. }
  repeat split.
  - rewrite rk4Step_value. unfold clock_derivative, add, multiply, vec_of. simpl.
    decide_reals. simpl. close_reals.
  - unfold rk4Step_spec, clock_derivative, add, multiply, vec_of. simpl.
    decide_reals. simpl. close_reals.
  - rewrite rk4Step_value. unfold jump_derivative. cbv zeta.
    rewrite Hhalf, Hzero. unfold add, multiply, vec_of. simpl.
    decide_reals. simpl. close_reals.
  - unfold rk4Step_spec, jump_derivative. cbv zeta.
    rewrite Hhalf, Hzero, Hone. unfold add, multiply, vec_of. simpl.
    decide_reals. simpl. close_reals.
Qed.

(** ** Loops that leave a projection of the state alone *)

Lemma fold_left_proj {A B C : Type} (g : A -> C) (f : A -> B -> A) (l : list B) :
  (forall a x, g (f a x) = g a) ->
  forall a, g (fold_left f l a) = g a.
Proof.
  intros Hf. induction l as [|x l IH]; intros a; simpl.
  - reflexivity.
  - rewrite IH. apply Hf.
Qed.

(** ** The force between two bodies, without the divisor log *)

Lemma calculateForceBetween_unfold (e : Engine) (i j : nat) :
  calculateForceBetween e i j =
  match bodies e !! i, bodies e !! j with
  | Some body1, Some body2 =>
      let r := subtract (position body2) (position body1) in
      let distance := magnitude r in
      if jlt distance (softening e) then e
      else
        let forceMagnitude :=
          (gravity e * mass body1 * mass body2
           / (distance * distance + softening e * softening e))%js in
        let force := multiply (normalize r) forceMagnitude in
        let e1 :=
          set_bodies e
            (alter (fun b =>
                      set_acceleration b
                        (add (acceleration b) (divide force (mass body1))))
                   i (bodies e)) in
        let e2 :=
          set_bodies e1
            (alter (fun b =>
                      set_acceleration b
                        (add (acceleration b)
                             (multiply force (Num (-1) / mass body2)%js)))
                   j (bodies e1)) in
        incr_forceCalculations e2
  | _, _ => e
  end.
Proof.
  unfold calculateForceBetween, calculateForceBetweenT.
  destruct (bodies e !! i) as [body1|]; [|reflexivity].
  destruct (bodies e !! j) as [body2|]; [|reflexivity].
  cbv zeta.
  destruct (jlt _ (softening e)); [reflexivity|].
  unfold normalize, normalizeT.
  destruct (jeq _ (Num 0)); reflexivity.
Qed.

Lemma length_calculateForceBetween (e : Engine) (i j : nat) :
  length (bodies (calculateForceBetween e i j)) = length (bodies e).
Proof.
  rewrite calculateForceBetween_unfold.
  destruct (bodies e !! i) as [body1|]; [|reflexivity].
  destruct (bodies e !! j) as [body2|]; [|reflexivity].
  cbv zeta. destruct (jlt _ (softening e)); [reflexivity|].
  simpl. rewrite !length_alter. reflexivity.
Qed.

Lemma spatialHash_calculateForceBetween (e : Engine) (i j : nat) :
  spatialHash (calculateForceBetween e i j) = spatialHash e.
Proof.
  rewrite calculateForceBetween_unfold.
  destruct (bodies e !! i) as [body1|]; [|reflexivity].
  destruct (bodies e !! j) as [body2|]; [|reflexivity].
  cbv zeta. destruct (jlt _ (softening e)); reflexivity.
Qed.

Section ForceLoops.

Context {C : Type} (g : Engine -> C).
Hypothesis g_pair : forall e i j, g (calculateForceBetween e i j) = g e.

Lemma forcesWithinCell_proj (l : list nat) (e : Engine) :
  g (forcesWithinCell l e) = g e.
Proof using g_pair.
  revert e. induction l as [|bi rest IH]; intros e; simpl.
  - reflexivity.
  - rewrite IH. apply fold_left_proj. intros. apply g_pair.
Qed.

Lemma forcesBetweenCells_proj (l1 l2 : list nat) (e : Engine) :
  g (forcesBetweenCells l1 l2 e) = g e.
Proof using g_pair.
  unfold forcesBetweenCells. apply fold_left_proj. intros a x.
  apply fold_left_proj. intros. apply g_pair.
Qed.

Lemma forcesForCell_proj (h : hash) (e : Engine) (cell : cellkey) :
  g (forcesForCell h e cell) = g e.
Proof using g_pair.
  unfold forcesForCell. rewrite fold_left_proj.
  - apply forcesWithinCell_proj.
  - intros. apply forcesBetweenCells_proj.
Qed.

Lemma force_loop_proj (h : hash) (cells : list cellkey) (e : Engine) :
  g (fold_left (forcesForCell h) cells e) = g e.
Proof using g_pair.
  apply fold_left_proj. intros. apply forcesForCell_proj.
Qed.

End ForceLoops.

Lemma length_calculateForces (e : Engine) :
  length (bodies (calculateForces e)) = length (bodies e).
Proof.
  unfold calculateForces.
  rewrite (force_loop_proj (fun e => length (bodies e)))
    by apply length_calculateForceBetween.
  simpl. apply length_map.
Qed.

(** [calculateForces] reads the spatial hash and leaves it as it found it. *)
Lemma spatialHash_calculateForces (e : Engine) :
  spatialHash (calculateForces e) = spatialHash e.
Proof.
  unfold calculateForces.
  rewrite (force_loop_proj spatialHash) by apply spatialHash_calculateForceBetween.
  reflexivity.
Qed.

(** ** The RK4 path *)

Lemma length_setStateVector_loop (state : obj) (bs : list Body) :
  forall index, length (setStateVector_loop state index bs) = length bs.
Proof.
  induction bs as [|b bs IH]; intros index; simpl; [reflexivity|].
  rewrite IH. reflexivity.
Qed.

Lemma length_derivativeFunction (t : val) (state : obj) (e : Engine) :
  length (bodies (snd (derivativeFunction t state e))) = length (bodies e).
Proof.
  unfold derivativeFunction. simpl.
  rewrite length_calculateForces. simpl. apply length_setStateVector_loop.
Qed.

(** Adding anything to an array gives [{x: NaN, y: NaN, z: NaN}]: an array
    has no property [x], [y] or [z]. *)
Lemma add_array (l : list val) (o : obj) : add (OArr l) o = nan_vec.
Proof. reflexivity. Qed.

Lemma rk4Step_array {S : Type} (f : val -> obj -> S -> obj * S)
      (t : val) (l : list val) (h : val) (s : S) :
  fst (rk4Step f t (OArr l) h s) = nan_vec.
Proof.
  unfold rk4Step.
  destruct (f t (OArr l) s) as [k1 s1].
  destruct (f _ _ s1) as [k2 s2].
  destruct (f _ _ s2) as [k3 s3].
  destruct (f _ _ s3) as [k4 s4].
  reflexivity.
Qed.

(** Unpacking a record as if it were an array reads [undefined] at every
    index. *)
Lemma setStateVector_loop_vec (v : vec) (bs : list Body) :
  forall index,
    map position (setStateVector_loop (OVec v) index bs)
      = repeat undefined_vec (length bs) /\
    map velocity (setStateVector_loop (OVec v) index bs)
      = repeat undefined_vec (length bs).
Proof.
  induction bs as [|b bs IH]; intros index; simpl; [split; reflexivity|].
  destruct (IH (index + 6)%nat) as [Hp Hv].
  rewrite Hp, Hv. split; reflexivity.
Qed.

(** A property of the state that every call of the derivative function
    keeps is kept by the whole step. *)
Lemma rk4Step_inv {S : Type} (P : S -> Prop) (f : val -> obj -> S -> obj * S) :
  (forall t y s, P s -> P (snd (f t y s))) ->
  forall t y h s, P s -> P (snd (rk4Step f t y h s)).
Proof.
  intros Hf t y h s Hs. unfold rk4Step.
  pose proof (Hf t y s Hs) as H1.
  destruct (f t y s) as [k1 s1]. simpl in H1.
  match goal with |- context [f ?t' ?y' s1] =>
    pose proof (Hf t' y' s1 H1) as H2; destruct (f t' y' s1) as [k2 s2] end.
  simpl in H2.
  match goal with |- context [f ?t' ?y' s2] =>
    pose proof (Hf t' y' s2 H2) as H3; destruct (f t' y' s2) as [k3 s3] end.
  simpl in H3.
  match goal with |- context [f ?t' ?y' s3] =>
    pose proof (Hf t' y' s3 H3) as H4; destruct (f t' y' s3) as [k4 s4] end.
  exact H4.
Qed.

Lemma length_rk4Step_derivativeFunction (t : val) (y : obj) (h : val) (e : Engine) :
  length (bodies (snd (rk4Step derivativeFunction t y h e))) = length (bodies e).
Proof.
  apply (rk4Step_inv (fun s => length (bodies s) = length (bodies e))).
  - intros t' y' s Hs. rewrite length_derivativeFunction. exact Hs.
  - reflexivity.
Qed.

(** Whatever the bodies were, one [updateRK4] leaves every position and
    every velocity component [undefined]. *)
Lemma updateRK4_state (dt : val) (e : Engine) :
  map position (bodies (updateRK4 dt e)) = repeat undefined_vec (length (bodies e)) /\
  map velocity (bodies (updateRK4 dt e)) = repeat undefined_vec (length (bodies e)).
Proof.
  unfold updateRK4, getStateVector.
  pose proof (rk4Step_array derivativeFunction (Num 0)
                (flat_map
                   (fun body =>
                      [vx (position body); vy (position body); vz (position body);
                       vx (velocity body); vy (velocity body); vz (velocity body)])
                   (bodies e)) dt e) as Hval.
  pose proof (length_rk4Step_derivativeFunction (Num 0)
                (OArr (flat_map
                   (fun body =>
                      [vx (position body); vy (position body); vz (position body);
                       vx (velocity body); vy (velocity body); vz (velocity body)])
                   (bodies e))) dt e) as Hlen.
  destruct (rk4Step derivativeFunction _ _ dt e) as [newState e'].
  simpl in Hval, Hlen. subst newState. simpl.
  rewrite <- Hlen. apply setStateVector_loop_vec.
Qed.

(** ** Configuration fields are not touched by a tick *)

Section ConfigFrame.

Context {C : Type} (g : Engine -> C).
Hypothesis g_bodies : forall e bs, g (set_bodies e bs) = g e.
Hypothesis g_stats : forall e s, g (set_stats e s) = g e.

Lemma config_calculateForceBetween (e : Engine) (i j : nat) :
  g (calculateForceBetween e i j) = g e.
Proof using g_bodies g_stats.
  rewrite calculateForceBetween_unfold.
  destruct (bodies e !! i) as [body1|]; [|reflexivity].
  destruct (bodies e !! j) as [body2|]; [|reflexivity].
  cbv zeta. destruct (jlt _ (softening e)); [reflexivity|].
  unfold incr_forceCalculations. rewrite g_stats, !g_bodies. reflexivity.
Qed.

Lemma config_calculateForces (e : Engine) : g (calculateForces e) = g e.
Proof using g_bodies g_stats.
  unfold calculateForces.
  rewrite (force_loop_proj g) by apply config_calculateForceBetween.
  rewrite g_bodies, g_stats. reflexivity.
Qed.

Lemma config_derivativeFunction (t : val) (state : obj) (e : Engine) :
  g (snd (derivativeFunction t state e)) = g e.
Proof using g_bodies g_stats.
  unfold derivativeFunction. simpl. rewrite config_calculateForces.
  unfold setStateVector. apply g_bodies.
Qed.

Lemma config_updateRK4 (dt : val) (e : Engine) : g (updateRK4 dt e) = g e.
Proof using g_bodies g_stats.
  unfold updateRK4.
  pose proof (rk4Step_inv (fun s => g s = g e) derivativeFunction) as H.
  specialize (H (fun t y s Hs => eq_trans (config_derivativeFunction t y s) Hs)
                (Num 0) (getStateVector e) dt e eq_refl).
  destruct (rk4Step derivativeFunction _ _ dt e) as [newState e'].
  simpl in H. unfold setStateVector. rewrite g_bodies. exact H.
Qed.

Lemma config_integrate (dt : val) (e : Engine) : g (integrate dt e) = g e.
Proof using g_bodies g_stats.
  unfold integrate.
  repeat match goal with |- context [if ?b then _ else _] => destruct b end;
    first [ apply config_updateRK4 | apply g_bodies ].
Qed.

Lemma config_updateTrails (e : Engine) : g (updateTrails e) = g e.
Proof using g_bodies. apply g_bodies. Qed.

Lemma config_resolveCollision (e : Engine) (i j : nat) :
  g (resolveCollision e i j) = g e.
Proof using g_bodies.
  unfold resolveCollision.
  destruct (bodies e !! i) as [body1|]; [|reflexivity].
  destruct (bodies e !! j) as [body2|]; [|reflexivity].
  cbv zeta. destruct (jgt _ (Num 0)); [reflexivity|].
  rewrite !g_bodies. reflexivity.
Qed.

Lemma config_collidePair (i : nat) (e : Engine) (j : nat) :
  g (collidePair i e j) = g e.
Proof using g_bodies g_stats.
  unfold collidePair.
  destruct (bodies e !! i) as [body1|]; [|reflexivity].
  destruct (bodies e !! j) as [body2|]; [|reflexivity].
  cbv zeta. destruct (jlt _ _); [|reflexivity].
  unfold incr_collisions. rewrite g_stats. apply config_resolveCollision.
Qed.

Lemma config_handleCollisions (e : Engine) : g (handleCollisions e) = g e.
Proof using g_bodies g_stats.
  unfold handleCollisions. rewrite fold_left_proj.
  - apply g_stats.
  - intros a i. apply fold_left_proj. intros. apply config_collidePair.
Qed.

End ConfigFrame.

Lemma update_unfold (deltaTime : val) (e : Engine) :
  jle (deltaTime * timeScale e) (Num 0) = false ->
  update deltaTime e =
  let e1 :=
    updateTrails
      (integrate (deltaTime * timeScale e)
         (set_stats e (set_integrationSteps (stats e)
                                            (S (integrationSteps (stats e)))))) in
  trackEnergyConservation
    (updateSpatialHash (if collisionDetection e1 then handleCollisions e1 else e1)).
Proof.
  intros H. unfold update. rewrite H. reflexivity.
Qed.

Lemma collisionDetection_after_integration (dt : val) (e : Engine) (s : Stats) :
  collisionDetection (updateTrails (integrate dt (set_stats e s)))
  = collisionDetection e.
Proof.
  rewrite (config_updateTrails collisionDetection) by reflexivity.
  rewrite (config_integrate collisionDetection) by reflexivity.
  reflexivity.
Qed.

Lemma position_updateTrails (e : Engine) :
  map position (bodies (updateTrails e)) = map position (bodies e).
Proof.
  unfold updateTrails. simpl. rewrite map_map. reflexivity.
Qed.

Lemma velocity_updateTrails (e : Engine) :
  map velocity (bodies (updateTrails e)) = map velocity (bodies e).
Proof.
  unfold updateTrails. simpl. rewrite map_map. reflexivity.
Qed.

Lemma acceleration_updateTrails (e : Engine) :
  map acceleration (bodies (updateTrails e)) = map acceleration (bodies e).
Proof.
  unfold updateTrails. simpl. rewrite map_map. reflexivity.
Qed.

(** C3: with rk4 selected the stepped state is not unpacked into the
    bodies.  On the Figure-8 preset, [getStateVector] packs the eighteen
    components in the stated order, but [rk4Step] adds and scales with the
    [{x, y, z}] helpers: on the array it returns [{x: NaN, y: NaN, z: NaN}],
    not a sequence, and [setStateVector] then reads [undefined] at every
    index.  After one [update(1/60)] every position and velocity component
    of every body is [undefined]. *)
Theorem update_rk4_loses_state :
  integrationMethod figure8 = "rk4"%string /\
  getStateVector figure8 =
    OArr [Num (-1); Num 0; Num 0; Num 0; Num 0.5; Num 0;
          Num 1; Num 0; Num 0; Num 0; Num (-0.5); Num 0;
          Num 0; Num 0; Num 0; Num 0; Num 0; Num 0] /\
  fst (rk4Step derivativeFunction (Num 0) (getStateVector figure8)
               (Num (1 / 60) * timeScale figure8)%js figure8) = nan_vec /\
  map position (bodies (update (Num (1 / 60)) figure8))
    = [undefined_vec; undefined_vec; undefined_vec] /\
  map velocity (bodies (update (Num (1 / 60)) figure8))
    = [undefined_vec; undefined_vec; undefined_vec].
Proof.
  split; [reflexivity|]. split; [reflexivity|].
  split; [apply rk4Step_array|].
  assert (Hdt : jle (Num (1 / 60) * timeScale figure8) (Num 0) = false).
  { apply jle_Num_false. lra. }
  rewrite (update_unfold _ _ Hdt). cbv zeta.
  rewrite collisionDetection_after_integration.
  change (collisionDetection figure8) with false. cbv iota.
  rewrite !bodies_trackEnergyConservation, !bodies_updateSpatialHash.
  rewrite position_updateTrails, velocity_updateTrails.
  change (integrate ?dt ?e) with (updateRK4 dt e).
  match goal with |- context [updateRK4 ?dt ?e] =>
    destruct (updateRK4_state dt e) as [Hp Hv] end.
  rewrite Hp, Hv. split; reflexivity.
Qed.

(** ** The terms of the total energy *)

Lemma distance_sym (r1 r2 : obj) : distance r1 r2 = distance r2 r1.
Proof.
  unfold distance. cbv zeta.
  assert (Hsq : forall a b : val, ((a - b) * (a - b))%js = ((b - a) * (b - a))%js).
  { intros a b. destruct a, b; simpl; try reflexivity. f_equal. lra. }
  rewrite (Hsq (get_x r1)), (Hsq (get_y r1)), (Hsq (get_z r1)). reflexivity.
Qed.

Lemma potentialRow_terms (bi : Body) (rest : list Body) (acc : val) :
  potentialRow bi rest acc =
  fold_left jadd
    (map (fun bj => gravitationalPotentialEnergy (mass bi) (mass bj)
                                                 (position bi) (position bj))
         rest)
    acc.
Proof.
  unfold potentialRow. revert acc.
  induction rest as [|b rest IH]; intros acc; simpl; [reflexivity|apply IH].
Qed.

Lemma potentialLoop_terms (bodies : list Body) :
  forall acc, potentialLoop bodies acc = fold_left jadd (potentialTerms bodies) acc.
Proof.
  induction bodies as [|bi rest IH]; intros acc; simpl; [reflexivity|].
  rewrite IH, potentialRow_terms, fold_left_app. reflexivity.
Qed.

Lemma figure8_bodies : bodies figure8 = [figure8_body0; figure8_body1; figure8_body2].
Proof. reflexivity. Qed.

(** On the Figure-8 preset the total energy is NaN: the first potential
    term is [-G * m1 * m2 / 2] with [G] undefined. *)
Lemma figure8_totalEnergy : totalEnergy (bodies figure8) = NaN.
Proof.
  assert (Hnan : forall a : val, (a + NaN)%js = NaN) by (intros []; reflexivity).
  assert (Hnan' : forall a : val, (NaN + a)%js = NaN) by reflexivity.
  assert (Hpot : gravitationalPotentialEnergy (Num 1) (Num 1) (vec_of (-1) 0 0)
                   (vec_of 1 0 0) = NaN).
  { unfold gravitationalPotentialEnergy. cbv zeta.
    rewrite distance_vec_of, (sqrt_of_square _ 2), jeq_Num_false by lra.
    reflexivity. }
  rewrite figure8_bodies. unfold totalEnergy. cbv zeta.
  unfold figure8_body0, figure8_body1, figure8_body2.
  simpl potentialLoop. unfold potentialRow. simpl fold_left.
  rewrite Hpot, Hnan, !Hnan'. reflexivity.
Qed.

(** ** Energy drift *)

(** With [G] undefined a potential term is 0 (coincident bodies) or NaN,
    so for bodies of non-negative mass the total energy is NaN or a
    non-negative number: it is never a negative number. *)
Lemma gravitationalPotentialEnergy_values (m1 m2 : val) (r1 r2 : obj) :
  gravitationalPotentialEnergy m1 m2 r1 r2 = Num 0 \/
  gravitationalPotentialEnergy m1 m2 r1 r2 = NaN.
Proof.
  unfold gravitationalPotentialEnergy. cbv zeta.
  destruct (jeq _ (Num 0)); [left|right]; reflexivity.
Qed.

Lemma kineticEnergy_nonneg (m : R) (v : obj) :
  (0 <= m)%R ->
  kineticEnergy (Num m) v = NaN \/
  exists k, kineticEnergy (Num m) v = Num k /\ (0 <= k)%R.
Proof.
  intros Hm. unfold kineticEnergy, magnitude. cbv zeta.
  destruct (get_x v * get_x v + get_y v * get_y v + get_z v * get_z v)%js
    as [s| |]; simpl; try (left; reflexivity).
  destruct (Rle_dec 0 s); simpl; [|left; reflexivity].
  right. eexists. split; [reflexivity|].
  pose proof (sqrt_pos s). nra.
Qed.

Lemma totalEnergy_never_negative (bodies : list Body) :
  Forall (fun b => exists m, mass b = Num m /\ (0 <= m)%R) bodies ->
  totalEnergy bodies = NaN \/
  exists r, totalEnergy bodies = Num r /\ (0 <= r)%R.
Proof.
  intros Hmass. unfold totalEnergy. cbv zeta.
  rewrite potentialLoop_terms.
  set (ok := fun v : val => v = NaN \/ exists r, v = Num r /\ (0 <= r)%R).
  assert (Hadd : forall a b, ok a -> ok b -> ok (a + b)%js).
  { intros a b [->|(x & -> & Hx)] [->|(y & -> & Hy)]; simpl;
      try (left; reflexivity).
    right. eexists. split; [reflexivity|lra]. }
  assert (Hfold : forall l a, Forall ok l -> ok a -> ok (fold_left jadd l a)).
  { induction l as [|x l IH]; intros a Hl Ha; simpl; [exact Ha|].
    inversion Hl; subst. apply IH; [assumption|]. apply Hadd; assumption. }
  apply Hfold.
  - clear Hmass. induction bodies as [|b rest IH]; simpl; [constructor|].
    apply Forall_app. split; [|exact IH].
    apply Forall_forall. intros v Hv. apply list_elem_of_In, in_map_iff in Hv.
    destruct Hv as (bj & <- & _).
    destruct (gravitationalPotentialEnergy_values (mass b) (mass bj)
                (position b) (position bj)) as [-> | ->];
      [right; exists 0%R; split; [reflexivity|lra] | left; reflexivity].
  - assert (Hk : forall a, ok a ->
        ok (fold_left (fun acc body => (acc + kineticEnergy (mass body) (velocity body))%js)
                      bodies a)).
    { induction Hmass as [|b rest (m & Hm & Hpos) _ IH]; intros a Ha; simpl;
        [exact Ha|].
      apply IH, Hadd; [exact Ha|]. rewrite Hm.
      apply kineticEnergy_nonneg, Hpos. }
    apply Hk. right. exists 0%R. split; [reflexivity|lra].
Qed.

(** ** The softening guard *)

(** C8: two bodies at one position.  The separation vector has magnitude 0,
    below the (positive) softening length, so [calculateForceBetween]
    returns before any of its divisions: the engine, and with it both
    accelerations, is unchanged, and the log of divisors is empty. *)
Theorem calculateForceBetween_identical_positions
        (e : Engine) (i j : nat) (body1 body2 : Body) (px py pz s : R) :
  bodies e !! i = Some body1 ->
  bodies e !! j = Some body2 ->
  position body1 = vec_of px py pz ->
  position body2 = vec_of px py pz ->
  softening e = Num s ->
  (0 < s)%R ->
  calculateForceBetween e i j = e /\
  snd (calculateForceBetweenT e i j) = [] /\
  acceleration <$> bodies (calculateForceBetween e i j) !! i
    = Some (acceleration body1) /\
  acceleration <$> bodies (calculateForceBetween e i j) !! j
    = Some (acceleration body2).
Proof.
  intros Hi Hj Hp1 Hp2 Hs Hpos.
  assert (HT : calculateForceBetweenT e i j = (e, [])).
  { unfold calculateForceBetweenT. rewrite Hi, Hj, Hp1, Hp2, Hs. cbv zeta.
    change (subtract (vec_of px py pz) (vec_of px py pz))
      with (vec_of (px - px) (py - py) (pz - pz)).
    rewrite magnitude_vec_of.
    replace ((px - px) * (px - px) + (py - py) * (py - py)
             + (pz - pz) * (pz - pz))%R with 0%R by ring.
    rewrite sqrt_0, jlt_Num_true by exact Hpos. reflexivity. }
  unfold calculateForceBetween. rewrite HT. simpl.
  rewrite Hi, Hj. repeat split; reflexivity.
Qed.

Lemma calculateForceBetween_identical_positions_witness :
  calculateForceBetween coincident 0 1 = coincident /\
  snd (calculateForceBetweenT coincident 0 1) = [] /\
  acceleration <$> bodies (calculateForceBetween coincident 0 1) !! 0%nat
    = Some zero_vec /\
  acceleration <$> bodies (calculateForceBetween coincident 0 1) !! 1%nat
    = Some zero_vec.
Proof.
  apply (calculateForceBetween_identical_positions
           coincident 0 1
           (mkBody 0 (Num 1) (vec_of 1 2 3) (vec_of 0 0 0) zero_vec
                   (calculateRadius (Num 1)) [] 200)
           (mkBody 1 (Num 1) (vec_of 1 2 3) (vec_of 0 0 0) zero_vec
                   (calculateRadius (Num 1)) [] 200)
           1 2 3 1e-6).
  - reflexivity.
  - reflexivity.
  - reflexivity.
  - reflexivity.
  - reflexivity.
  - lra.
Defined.

(** ** The evaluation schedule of [calculateForces] *)

Lemma fold_left_map {A B C : Type} (f : A -> B -> A) (g : C -> B) (l : list C) :
  forall a, fold_left f (map g l) a = fold_left (fun a x => f a (g x)) l a.
Proof.
  induction l as [|x l IH]; intros a; simpl; [reflexivity|apply IH].
Qed.

Lemma fold_left_flat_map {A B C : Type} (f : A -> B -> A) (g : C -> list B)
      (l : list C) :
  forall a,
    fold_left f (flat_map g l) a = fold_left (fun a x => fold_left f (g x) a) l a.
Proof.
  induction l as [|x l IH]; intros a; simpl; [reflexivity|].
  rewrite fold_left_app. apply IH.
Qed.

Lemma forcesWithinCell_schedule (bucket : list nat) :
  forall e, forcesWithinCell bucket e = fold_left applyPair (intraPairs bucket) e.
Proof.
  induction bucket as [|bi rest IH]; intros e; simpl; [reflexivity|].
  rewrite fold_left_app, fold_left_map. apply IH.
Qed.

Lemma forcesBetweenCells_schedule (bucket1 bucket2 : list nat) (e : Engine) :
  forcesBetweenCells bucket1 bucket2 e
  = fold_left applyPair (crossPairs bucket1 bucket2) e.
Proof.
  unfold forcesBetweenCells, crossPairs. rewrite fold_left_flat_map.
  revert e. induction bucket1 as [|b1 l IH]; intros e; simpl; [reflexivity|].
  rewrite fold_left_map. apply IH.
Qed.

Lemma forcesForCell_schedule (h : hash) (e : Engine) (cell : cellkey) :
  forcesForCell h e cell = fold_left applyPair (cellPairs h cell) e.
Proof.
  unfold forcesForCell, cellPairs. cbv zeta.
  rewrite fold_left_app, fold_left_flat_map, forcesWithinCell_schedule.
  generalize (fold_left applyPair (intraPairs (default [] (hash_get h cell))) e).
  induction (getNeighboringCells cell) as [|nb l IH]; intros e'; simpl;
    [reflexivity|].
  rewrite forcesBetweenCells_schedule. apply IH.
Qed.

(** [calculateForces] zeroes the counter and the accelerations and then
    makes exactly the calls of [forcePairs], in that order, on the hash as
    it stands. *)
Lemma calculateForces_schedule (e : Engine) :
  calculateForces e =
  fold_left applyPair (forcePairs (spatialHash e))
    (set_bodies (set_stats e (set_forceCalculations (stats e) 0))
                (map (fun body => set_acceleration body zero_vec) (bodies e))).
Proof.
  unfold calculateForces, forcePairs, getNearbyCells. cbv zeta.
  rewrite fold_left_flat_map.
  change (spatialHash (set_bodies _ _)) with (spatialHash e).
  change (bodies (set_stats e _)) with (bodies e).
  generalize (set_bodies (set_stats e (set_forceCalculations (stats e) 0))
                (map (fun body => set_acceleration body zero_vec) (bodies e))).
  generalize (spatialHash e) at 1 3. intros h.
  induction (map fst (spatialHash e)) as [|c l IH]; intros e'; simpl;
    [reflexivity|].
  rewrite forcesForCell_schedule. apply IH.
Qed.

(** ** Cells one step away *)

Lemma neighbour_of_shift (x y z dx dy dz : Z) :
  (dx = -1 \/ dx = 0 \/ dx = 1)%Z ->
  (dy = -1 \/ dy = 0 \/ dy = 1)%Z ->
  (dz = -1 \/ dz = 0 \/ dz = 1)%Z ->
  (CInt x, CInt y, CInt z) = (CInt (x + dx), CInt (y + dy), CInt (z + dz)) \/
  In (CInt (x + dx), CInt (y + dy), CInt (z + dz))
     (getNeighboringCells (CInt x, CInt y, CInt z)).
Proof.
  intros Hx Hy Hz.
  destruct Hx as [-> | [-> | ->]]; destruct Hy as [-> | [-> | ->]];
    destruct Hz as [-> | [-> | ->]];
    try (right; cbn; tauto).
  left. rewrite !Z.add_0_r. reflexivity.
Qed.

(** ** What a rebuilt spatial hash holds *)

Lemma hash_get_here (h : hash) (k : cellkey) (bucket : list nat) :
  hash_get ((k, bucket) :: h) k = Some bucket.
Proof. simpl. destruct (decide (k = k)); [reflexivity|contradiction]. Qed.

Lemma hash_get_further (h : hash) (k k' : cellkey) (bucket : list nat) :
  k' <> k -> hash_get ((k', bucket) :: h) k = hash_get h k.
Proof. intros Hne. simpl. destruct (decide (k' = k)); [contradiction|reflexivity]. Qed.

Lemma hash_push_in_cell_new (h : hash) (k : cellkey) (i : nat) :
  in_cell (hash_push h k i) k i.
Proof.
  induction h as [|[k' bucket] h IH]; simpl.
  - exists [i]. rewrite hash_get_here. split; [reflexivity|left; reflexivity].
  - destruct (decide (k' = k)) as [->|Hne].
    + exists (bucket ++ [i]). rewrite hash_get_here.
      split; [reflexivity|]. apply in_or_app. right. left. reflexivity.
    + destruct IH as (b & Hget & Hin). exists b.
      rewrite hash_get_further by exact Hne. split; assumption.
Qed.

Lemma hash_push_in_cell_old (h : hash) (k : cellkey) (i : nat)
      (k0 : cellkey) (x : nat) :
  in_cell h k0 x -> in_cell (hash_push h k i) k0 x.
Proof.
  induction h as [|[k' bucket] h IH]; intros (b & Hget & Hin).
  - discriminate.
  - simpl hash_push. destruct (decide (k' = k)) as [->|Hne].
    + destruct (decide (k = k0)) as [->|Hne0].
      * rewrite hash_get_here in Hget. injection Hget as <-.
        exists (bucket ++ [i]). rewrite hash_get_here.
        split; [reflexivity|]. apply in_or_app. left. exact Hin.
      * rewrite hash_get_further in Hget by exact Hne0.
        exists b. rewrite hash_get_further by exact Hne0. split; assumption.
    + destruct (decide (k' = k0)) as [->|Hne0].
      * rewrite hash_get_here in Hget. exists b. rewrite hash_get_here.
        split; assumption.
      * rewrite hash_get_further in Hget by exact Hne0.
        destruct (IH (ex_intro _ b (conj Hget Hin))) as (b' & Hget' & Hin').
        exists b'. rewrite hash_get_further by exact Hne0. split; assumption.
Qed.

Lemma rebuild_in_cell_old (e : Engine) (bs : list Body) :
  forall (i0 : nat) (h : hash) (k : cellkey) (x : nat),
    in_cell h k x -> in_cell (rebuild e bs i0 h) k x.
Proof.
  induction bs as [|b bs IH]; intros i0 h k x Hx; simpl.
  - exact Hx.
  - apply IH, hash_push_in_cell_old, Hx.
Qed.

Lemma rebuild_in_cell_new (e : Engine) (bs : list Body) :
  forall (i0 : nat) (h : hash) (n : nat) (b : Body),
    bs !! n = Some b ->
    in_cell (rebuild e bs i0 h) (getCellKey e (position b)) (i0 + n).
Proof.
  induction bs as [|b0 bs IH]; intros i0 h n b Hn; [discriminate|].
  destruct n as [|n]; simpl in *.
  - injection Hn as <-. rewrite Nat.add_0_r.
    apply rebuild_in_cell_old, hash_push_in_cell_new.
  - replace (i0 + S n)%nat with (S i0 + n)%nat by lia. apply IH, Hn.
Qed.

(** After [updateSpatialHash] every body is in the bucket of its cell. *)
Lemma updateSpatialHash_in_cell (e : Engine) (n : nat) (b : Body) :
  bodies e !! n = Some b ->
  in_cell (spatialHash (updateSpatialHash e)) (getCellKey e (position b)) n.
Proof.
  intros Hn. apply (rebuild_in_cell_new e (bodies e) 0 [] n b Hn).
Qed.

Lemma hash_get_key (h : hash) (k : cellkey) (bucket : list nat) :
  hash_get h k = Some bucket -> In k (map fst h).
Proof.
  induction h as [|[k' b] h IH]; simpl; [discriminate|].
  destruct (decide (k' = k)) as [->|Hne]; intros H.
  - left. reflexivity.
  - right. apply IH, H.
Qed.

Lemma crossPairs_In (l1 l2 : list nat) (x y : nat) :
  In x l1 -> In y l2 -> In (x, y) (crossPairs l1 l2).
Proof.
  intros Hx Hy. unfold crossPairs. apply in_flat_map.
  exists x. split; [exact Hx|]. apply in_map, Hy.
Qed.

(** Two occupied cells that list each other as neighbours: every pair of
    bodies across them is scheduled from both sides. *)
Lemma neighbouring_cells_scheduled_twice
      (h : hash) (k1 k2 : cellkey) (i j : nat) :
  in_cell h k1 i -> in_cell h k2 j ->
  In k2 (getNeighboringCells k1) -> In k1 (getNeighboringCells k2) ->
  In (i, j) (forcePairs h) /\ In (j, i) (forcePairs h).
Proof.
  intros (b1 & Hg1 & Hi) (b2 & Hg2 & Hj) H12 H21.
  pose proof (hash_get_key _ _ _ Hg1) as Hkey1.
  pose proof (hash_get_key _ _ _ Hg2) as Hkey2.
  unfold forcePairs. split; apply in_flat_map.
  - exists k1. split; [exact Hkey1|].
    unfold cellPairs. rewrite Hg1. apply in_or_app. right.
    apply in_flat_map. exists k2. split; [exact H12|].
    rewrite Hg2. apply crossPairs_In; assumption.
  - exists k2. split; [exact Hkey2|].
    unfold cellPairs. rewrite Hg2. apply in_or_app. right.
    apply in_flat_map. exists k1. split; [exact H21|].
    rewrite Hg1. apply crossPairs_In; assumption.
Qed.

(** ** Collisions *)

Lemma calculateRadius_1 : calculateRadius (Num 1) = Num 0.1.
Proof.
  unfold calculateRadius, Math.pow_third.
  destruct (Rlt_dec 0 1); [|lra].
  unfold Rpower. rewrite ln_1, Rmult_0_r, exp_0. simpl. f_equal. lra.
Qed.

Lemma subtract_vec_of (a b c a' b' c' : R) :
  subtract (vec_of a b c) (vec_of a' b' c') = vec_of (a - a') (b - b') (c - c').
Proof. reflexivity. Qed.

Lemma normalize_vec_of (a b c d : R) :
  (0 < d)%R -> (a * a + b * b + c * c = d * d)%R ->
  normalize (vec_of a b c) = vec_of (a / d) (b / d) (c / d).
Proof.
  intros Hd Hsq. unfold normalize, normalizeT. cbv zeta.
  rewrite magnitude_vec_of, (sqrt_of_square _ d) by lra.
  rewrite jeq_Num_false by lra.
  unfold divideT, divT, tbind, tret. simpl fst.
  simpl get_x; simpl get_y; simpl get_z.
  destruct (Req_dec_T d 0); [lra|reflexivity].
Qed.

Lemma head_on_bodies : bodies head_on = [head_on_body0; head_on_body1].
Proof. reflexivity. Qed.

Lemma head_on_resolved :
  bodies (resolveCollision head_on 0 1) =
  [set_velocity head_on_body0 (vec_of (-2.6) 0 0);
   set_velocity head_on_body1 (vec_of 2.6 0 0)].
Proof.
  unfold resolveCollision. rewrite head_on_bodies.
  simpl lookup. cbv beta iota zeta.
  simpl position. simpl velocity. simpl mass.
  rewrite !subtract_vec_of.
  rewrite (normalize_vec_of _ _ _ 0.1) by lra.
  unfold dot, vec_of. simpl get_x; simpl get_y; simpl get_z.
  simpl jmul. simpl jadd. unfold jgt. rewrite jlt_Num_false by lra.
  rewrite !jdiv_Num by lra.
  simpl. unfold set_velocity, head_on_body0, head_on_body1, vec_of, add, multiply.
  simpl. repeat f_equal; lra.
Qed.

Lemma head_on_collidePair (s : Stats) :
  collidePair 0 (set_stats head_on s) 1
  = incr_collisions (resolveCollision (set_stats head_on s) 0 1).
Proof.
  unfold collidePair.
  change (bodies (set_stats head_on _)) with (bodies head_on).
  rewrite head_on_bodies.
  simpl lookup. cbv beta iota.
  simpl position. simpl radius. rewrite distance_vec_of, calculateRadius_1.
  rewrite (sqrt_of_square _ 0.1) by lra.
  simpl jadd. rewrite jlt_Num_true by lra. reflexivity.
Qed.

Lemma head_on_handled :
  bodies (handleCollisions head_on) =
  [set_velocity head_on_body0 (vec_of (-2.6) 0 0);
   set_velocity head_on_body1 (vec_of 2.6 0 0)] /\
  collisions (stats (handleCollisions head_on)) = 1%nat.
Proof.
  unfold handleCollisions. cbv zeta.
  change (length (bodies _)) with 2%nat. simpl seq. simpl fold_left.
  rewrite head_on_collidePair.
  split.
  - exact head_on_resolved.
  - unfold incr_collisions, set_stats, set_collisions. simpl stats. simpl collisions.
    rewrite (config_resolveCollision (fun e => collisions (stats e)))
      by reflexivity.
    reflexivity.
Qed.

Lemma dot_vec_of (a b c a' b' c' : R) :
  dot (vec_of a b c) (vec_of a' b' c') = Num (a * a' + b * b' + c * c').
Proof. reflexivity. Qed.

(** What [resolveCollision] does to the relative velocity along the normal,
    for two distinct bodies with real data, distinct positions and an
    approaching (or vanishing) normal velocity [vn]: the new value is
    [vn - 1.8 * vn * (1/m1 + 1/m2)].  It is [-0.8 * vn] exactly when
    [vn = 0] or [1/m1 + 1/m2 = 1]. *)
Lemma resolveCollision_normal_velocity
      (e : Engine) (i j : nat) (body1 body2 : Body)
      (m1 m2 px py pz qx qy qz ux uy uz wx wy wz d vn : R) :
  bodies e !! i = Some body1 ->
  bodies e !! j = Some body2 ->
  i <> j ->
  mass body1 = Num m1 -> m1 <> 0%R ->
  mass body2 = Num m2 -> m2 <> 0%R ->
  position body1 = vec_of px py pz ->
  position body2 = vec_of qx qy qz ->
  velocity body1 = vec_of ux uy uz ->
  velocity body2 = vec_of wx wy wz ->
  (0 < d)%R ->
  ((qx - px) * (qx - px) + (qy - py) * (qy - py) + (qz - pz) * (qz - pz)
   = d * d)%R ->
  velocityAlongNormal e i j = Some (Num vn) ->
  (vn <= 0)%R ->
  velocityAlongNormal (resolveCollision e i j) i j
  = Some (Num (vn - (1 + 0.8) * vn * (1 / m1 + 1 / m2))).
Proof.
  intros Hi Hj Hne Hm1 Hm1' Hm2 Hm2' Hp Hq Hu Hw Hd Hsq Hvn Hneg.
  unfold velocityAlongNormal in Hvn. rewrite Hi, Hj, Hp, Hq, Hu, Hw in Hvn.
  rewrite !subtract_vec_of, (normalize_vec_of _ _ _ d), dot_vec_of in Hvn
    by assumption.
  injection Hvn as Hvn.
  assert (Hres : bodies (resolveCollision e i j) =
    alter (fun b => set_velocity b
             (add (velocity b)
                  (multiply (multiply (vec_of ((qx - px) / d) ((qy - py) / d) ((qz - pz) / d))
                                      (Num (- (1 + 0.8) * vn)))
                            (Num (1 / m2))))) j
      (alter (fun b => set_velocity b
                (add (velocity b)
                     (multiply (multiply (vec_of ((qx - px) / d) ((qy - py) / d) ((qz - pz) / d))
                                         (Num (- (1 + 0.8) * vn)))
                               (Num (-1 / m1))))) i (bodies e))).
  { unfold resolveCollision. rewrite Hi, Hj, Hp, Hq, Hu, Hw, Hm1, Hm2. cbv zeta.
    rewrite !subtract_vec_of, (normalize_vec_of _ _ _ d), dot_vec_of by assumption.
    rewrite Hvn. unfold jgt. rewrite jlt_Num_false by exact Hneg.
    rewrite !jdiv_Num by assumption. reflexivity. }
  unfold velocityAlongNormal. rewrite Hres.
  rewrite list_lookup_alter_ne, list_lookup_alter_eq, Hi by (intros ->; apply Hne; reflexivity).
  rewrite list_lookup_alter_eq, list_lookup_alter_ne, Hj by exact Hne.
  simpl. rewrite Hp, Hq, Hu, Hw.
  rewrite subtract_vec_of, (normalize_vec_of _ _ _ d) by assumption.
  assert (Hn : (((qx - px) / d) * ((qx - px) / d) + ((qy - py) / d) * ((qy - py) / d)
                + ((qz - pz) / d) * ((qz - pz) / d) = 1)%R).
  { replace (((qx - px) / d) * ((qx - px) / d) + ((qy - py) / d) * ((qy - py) / d)
             + ((qz - pz) / d) * ((qz - pz) / d))%R
      with (((qx - px) * (qx - px) + (qy - py) * (qy - py) + (qz - pz) * (qz - pz))
            / (d * d))%R by (field; lra).
    rewrite Hsq. field. lra. }
  revert Hvn Hn.
  generalize ((qx - px) / d)%R ((qy - py) / d)%R ((qz - pz) / d)%R.
  intros nx ny nz Hvn Hn.
  unfold dot, subtract, add, multiply, vec_of. simpl.
  f_equal. f_equal. subst vn.
  replace (-1 / m1)%R with (- (1 / m1))%R by (field; assumption).
  generalize (1 / m1)%R (1 / m2)%R (1 + 0.8)%R. intros a b k.
  transitivity
    (((wx - ux) * nx + (wy - uy) * ny + (wz - uz) * nz)
     + - k * ((wx - ux) * nx + (wy - uy) * ny + (wz - uz) * nz)
       * (nx * nx + ny * ny + nz * nz) * (a + b))%R.
  - ring.
  - rewrite Hn. ring.
Qed.

(** C5: the impulse is not divided by the sum of the inverse masses.  Two
    unit masses 0.1 apart (radii 0.1 each) approach head-on with velocities
    1 and -1 along x: the relative velocity along the normal is -2 before.
    [handleCollisions] finds the overlap, counts one collision, and
    [resolveCollision] leaves velocities -2.6 and 2.6: the relative
    velocity along the normal is 5.2 after, not -0.8 * -2 = 1.6. *)
Theorem resolveCollision_restitution_head_on :
  jlt (distance (position head_on_body0) (position head_on_body1))
      (radius head_on_body0 + radius head_on_body1) = true /\
  velocityAlongNormal head_on 0 1 = Some (Num (-2)) /\
  map velocity (bodies (resolveCollision head_on 0 1))
    = [vec_of (-2.6) 0 0; vec_of 2.6 0 0] /\
  map velocity (bodies (handleCollisions head_on))
    = [vec_of (-2.6) 0 0; vec_of 2.6 0 0] /\
  collisions (stats (handleCollisions head_on)) = 1%nat /\
  velocityAlongNormal (handleCollisions head_on) 0 1 = Some (Num 5.2) /\
  Num 5.2 <> (Num (-0.8) * Num (-2))%js.
Proof.
  destruct head_on_handled as [Hbodies Hcount].
  split.
  { simpl position. simpl radius. rewrite distance_vec_of, calculateRadius_1.
    rewrite (sqrt_of_square _ 0.1) by lra.
    simpl jadd. apply jlt_Num_true. lra. }
  split.
  { unfold velocityAlongNormal. rewrite head_on_bodies. simpl lookup.
    cbv beta iota. simpl position. simpl velocity.
    rewrite !subtract_vec_of, (normalize_vec_of _ _ _ 0.1) by lra.
    unfold dot, vec_of. simpl. repeat f_equal. lra. }
  split; [rewrite head_on_resolved; reflexivity|].
  split; [rewrite Hbodies; reflexivity|].
  split; [exact Hcount|].
  split.
  { unfold velocityAlongNormal. rewrite Hbodies. simpl lookup.
    cbv beta iota. simpl position. simpl velocity.
    rewrite !subtract_vec_of, (normalize_vec_of _ _ _ 0.1) by lra.
    unfold dot, vec_of. simpl. repeat f_equal. lra. }
  simpl. intros H. injection H as H. lra.
Qed.

(** ** One evaluated pair, on real data *)

Lemma divide_vec_of (a b c m : R) :
  m <> 0%R -> divide (vec_of a b c) (Num m) = vec_of (a / m) (b / m) (c / m).
Proof.
  intros Hm. unfold divide, divideT, divT, tbind, tret. simpl fst.
  simpl get_x; simpl get_y; simpl get_z.
  destruct (Req_dec_T m 0); [contradiction|reflexivity].
Qed.

Lemma calculateForceBetween_real
      (e : Engine) (bs : list Body) (n i j : nat) (body1 body2 : Body)
      (g s m1 m2 px py pz qx qy qz d : R) :
  bs !! i = Some body1 ->
  bs !! j = Some body2 ->
  gravity e = Num g ->
  softening e = Num s ->
  mass body1 = Num m1 -> m1 <> 0%R ->
  mass body2 = Num m2 -> m2 <> 0%R ->
  position body1 = vec_of px py pz ->
  position body2 = vec_of qx qy qz ->
  (0 < d)%R ->
  ((qx - px) * (qx - px) + (qy - py) * (qy - py) + (qz - pz) * (qz - pz)
   = d * d)%R ->
  (s <= d)%R ->
  calculateForceBetween (with_forces e bs n) i j =
  let fm := (g * m1 * m2 / (d * d + s * s))%R in
  let fx := ((qx - px) / d * fm)%R in
  let fy := ((qy - py) / d * fm)%R in
  let fz := ((qz - pz) / d * fm)%R in
  with_forces e
    (alter (fun b =>
              set_acceleration b
                (add (acceleration b)
                     (vec_of (fx * (-1 / m2)) (fy * (-1 / m2)) (fz * (-1 / m2)))))
           j
           (alter (fun b =>
                     set_acceleration b
                       (add (acceleration b)
                            (vec_of (fx / m1) (fy / m1) (fz / m1))))
                  i bs))
    (S n).
Proof.
  intros Hi Hj Hg Hs Hm1 Hm1' Hm2 Hm2' Hp Hq Hd Hsq Hsd.
  rewrite calculateForceBetween_unfold.
  change (bodies (with_forces e bs n)) with bs.
  change (softening (with_forces e bs n)) with (softening e).
  change (gravity (with_forces e bs n)) with (gravity e).
  rewrite Hi, Hj, Hg, Hs, Hm1, Hm2, Hp, Hq. cbv zeta.
  rewrite subtract_vec_of, magnitude_vec_of, (sqrt_of_square _ d) by lra.
  rewrite jlt_Num_false by exact Hsd.
  rewrite (normalize_vec_of _ _ _ d) by assumption.
  assert (Hden : (d * d + s * s)%R <> 0%R) by nra.
  simpl jmul. simpl jadd. rewrite !jdiv_Num by (exact Hden || lra).
  change (multiply (vec_of ?a ?b ?c) (Num ?k))
    with (vec_of (a * k) (b * k) (c * k)).
  rewrite divide_vec_of by exact Hm1'.
  reflexivity.
Qed.

(** ** Cell keys of explicit positions *)

Lemma floor_key_div (x c : R) (k : Z) :
  (0 < c)%R -> (IZR k * c <= x < (IZR k + 1) * c)%R ->
  floor_key (Num x / Num c) = CInt k.
Proof.
  intros Hc [Hlo Hhi]. rewrite jdiv_Num by lra. simpl. f_equal. symmetry.
  apply Int_part_spec.
  assert (Hq1 : (IZR k <= x / c)%R).
  { apply (Rmult_le_reg_r c); [exact Hc|]. unfold Rdiv.
    rewrite Rmult_assoc, Rinv_l by lra. lra. }
  assert (Hq2 : (x / c < IZR k + 1)%R).
  { apply (Rmult_lt_reg_r c); [exact Hc|]. unfold Rdiv.
    rewrite Rmult_assoc, Rinv_l by lra. lra. }
  lra.
Qed.

Lemma getCellKey_vec_of (e : Engine) (c x y z : R) (kx ky kz : Z) :
  hashCellSize e = Num c -> (0 < c)%R ->
  (IZR kx * c <= x < (IZR kx + 1) * c)%R ->
  (IZR ky * c <= y < (IZR ky + 1) * c)%R ->
  (IZR kz * c <= z < (IZR kz + 1) * c)%R ->
  getCellKey e (vec_of x y z) = (CInt kx, CInt ky, CInt kz).
Proof.
  intros Hsize Hc Hx Hy Hz. unfold getCellKey. rewrite Hsize.
  simpl get_x; simpl get_y; simpl get_z.
  rewrite (floor_key_div x c kx), (floor_key_div y c ky), (floor_key_div z c kz)
    by assumption.
  reflexivity.
Qed.

Lemma two_at_rest_bodies :
  bodies two_at_rest = [two_at_rest_body0; two_at_rest_body1].
Proof. reflexivity. Qed.

Lemma two_at_rest_hash :
  spatialHash two_at_rest = [((CInt 0, CInt 0, CInt 0), [0; 1]%nat)].
Proof.
  change (spatialHash two_at_rest)
    with (rebuild two_at_rest [two_at_rest_body0; two_at_rest_body1] 0 []).
  simpl rebuild. simpl position.
  rewrite (getCellKey_vec_of two_at_rest 1000 0 0 0 0 0 0),
          (getCellKey_vec_of two_at_rest 1000 1 0 0 0 0 0)
    by (reflexivity || lra).
  reflexivity.
Qed.

Lemma figure8_hash :
  spatialHash figure8 =
  [((CInt (-1), CInt 0, CInt 0), [0]%nat);
   ((CInt 0, CInt 0, CInt 0), [1; 2]%nat)].
Proof.
  change (spatialHash figure8)
    with (rebuild figure8 [figure8_body0; figure8_body1; figure8_body2] 0 []).
  simpl rebuild. simpl position.
  rewrite (getCellKey_vec_of figure8 1000 (-1) 0 0 (-1) 0 0),
          (getCellKey_vec_of figure8 1000 1 0 0 0 0 0),
          (getCellKey_vec_of figure8 1000 0 0 0 0 0 0)
    by (reflexivity || lra).
  reflexivity.
Qed.

Lemma figure8_forcePairs :
  forcePairs (spatialHash figure8)
  = [(0, 1); (0, 2); (1, 2); (1, 0); (2, 0)]%nat.
Proof. rewrite figure8_hash. reflexivity. Qed.

Lemma two_at_rest_forcePairs :
  forall m, forcePairs (spatialHash (setIntegrationMethod m two_at_rest))
            = [(0, 1)]%nat.
Proof.
  intros m.
  assert (H : spatialHash (setIntegrationMethod m two_at_rest)
              = spatialHash two_at_rest).
  { unfold setIntegrationMethod. destruct (existsb _ _); reflexivity. }
  rewrite H, two_at_rest_hash. reflexivity.
Qed.

(** ** Euler and Verlet: the acceleration a tick uses *)

Lemma map_alter_proj {A B : Type} (g : A -> B) (f : A -> A) (i : nat) (l : list A) :
  (forall a, g (f a) = g a) -> map g (alter f i l) = map g l.
Proof.
  intros Hf. revert i. induction l as [|a l IH]; intros i; [reflexivity|].
  destruct i as [|i]; simpl.
  - rewrite Hf. reflexivity.
  - f_equal. apply IH.
Qed.

Lemma acceleration_resolveCollision (e : Engine) (i j : nat) :
  map acceleration (bodies (resolveCollision e i j)) = map acceleration (bodies e).
Proof.
  unfold resolveCollision.
  destruct (bodies e !! i) as [body1|]; [|reflexivity].
  destruct (bodies e !! j) as [body2|]; [|reflexivity].
  cbv zeta. destruct (jgt _ (Num 0)); [reflexivity|].
  simpl. rewrite !map_alter_proj by reflexivity. reflexivity.
Qed.

Lemma acceleration_handleCollisions (e : Engine) :
  map acceleration (bodies (handleCollisions e)) = map acceleration (bodies e).
Proof.
  unfold handleCollisions. cbv zeta.
  rewrite (fold_left_proj (fun e => map acceleration (bodies e))).
  - reflexivity.
  - intros a i. apply (fold_left_proj (fun e => map acceleration (bodies e))).
    intros a' j. unfold collidePair.
    destruct (bodies a' !! i) as [body1|]; [|reflexivity].
    destruct (bodies a' !! j) as [body2|]; [|reflexivity].
    cbv zeta. destruct (jlt _ _); [|reflexivity].
    apply acceleration_resolveCollision.
Qed.

Lemma acceleration_updateEuler (dt : val) (e : Engine) :
  map acceleration (bodies (updateEuler dt e)) = map acceleration (bodies e).
Proof. unfold updateEuler. simpl. rewrite map_map. reflexivity. Qed.

Lemma acceleration_updateVerlet (dt : val) (e : Engine) :
  map acceleration (bodies (updateVerlet dt e)) = map acceleration (bodies e).
Proof. unfold updateVerlet. simpl. rewrite map_map. reflexivity. Qed.

(** With euler or verlet selected, a tick ends with the accelerations it
    started with: nothing on that path writes them. *)
Lemma update_keeps_acceleration (deltaTime : val) (e : Engine) :
  integrationMethod e = "euler"%string \/ integrationMethod e = "verlet"%string ->
  map acceleration (bodies (update deltaTime e)) = map acceleration (bodies e).
Proof.
  intros Hm. unfold update. cbv zeta.
  destruct (jle _ (Num 0)); [reflexivity|].
  rewrite bodies_trackEnergyConservation, bodies_updateSpatialHash.
  match goal with |- context [if ?b then handleCollisions ?x else ?x] =>
    assert (Hc : map acceleration (bodies (if b then handleCollisions x else x))
                 = map acceleration (bodies x))
      by (destruct b; [apply acceleration_handleCollisions|reflexivity]);
    rewrite Hc; clear Hc end.
  rewrite acceleration_updateTrails.
  unfold integrate. simpl integrationMethod.
  destruct Hm as [-> | ->]; simpl.
  - rewrite map_map. reflexivity.
  - rewrite map_map. reflexivity.
Qed.

Lemma two_at_rest_forces (m : string) :
  bodies (calculateForces (setIntegrationMethod m two_at_rest)) =
  [set_acceleration two_at_rest_body0 (vec_of (6.67430e-11 / (1 + 1e-12)) 0 0);
   set_acceleration two_at_rest_body1 (vec_of (- (6.67430e-11 / (1 + 1e-12))) 0 0)].
Proof.
  rewrite calculateForces_schedule, two_at_rest_forcePairs.
  assert (Hb : bodies (setIntegrationMethod m two_at_rest)
               = [two_at_rest_body0; two_at_rest_body1]).
  { unfold setIntegrationMethod. destruct (existsb _ _); reflexivity. }
  rewrite Hb. simpl map. simpl fold_left. unfold applyPair. simpl fst. simpl snd.
  match goal with |- context [set_bodies (set_stats ?e (set_forceCalculations _ ?n)) ?bs] =>
    change (set_bodies (set_stats e (set_forceCalculations (stats e) n)) bs)
      with (with_forces e bs n) end.
  erewrite (calculateForceBetween_real _ _ _ 0 1 _ _ 6.67430e-11 1e-6 1 1
                                       0 0 0 1 0 0 1);
    [ | reflexivity | reflexivity
      | unfold setIntegrationMethod; destruct (existsb _ _); reflexivity
      | unfold setIntegrationMethod; destruct (existsb _ _); reflexivity
      | reflexivity | lra | reflexivity | lra | reflexivity | reflexivity
      | lra | lra | lra ].
  cbv zeta. simpl alter. unfold with_forces. simpl bodies.
  unfold set_acceleration, two_at_rest_body0, two_at_rest_body1, add, vec_of,
    zero_vec.
  simpl. repeat f_equal; lra.
Qed.

Lemma two_at_rest_update (m : string) :
  m = "euler"%string \/ m = "verlet"%string ->
  map position (bodies (update (Num (1 / 60)) (setIntegrationMethod m two_at_rest)))
    = [vec_of 0 0 0; vec_of 1 0 0] /\
  map velocity (bodies (update (Num (1 / 60)) (setIntegrationMethod m two_at_rest)))
    = [vec_of 0 0 0; vec_of 0 0 0] /\
  map acceleration (bodies (update (Num (1 / 60)) (setIntegrationMethod m two_at_rest)))
    = [zero_vec; zero_vec].
Proof.
  intros Hm.
  assert (Hdt : jle (Num (1 / 60) * timeScale (setIntegrationMethod m two_at_rest))
                    (Num 0) = false).
  { destruct Hm as [-> | ->]; apply jle_Num_false; lra. }
  split; [|split].
  3: { rewrite update_keeps_acceleration; destruct Hm as [-> | ->];
       (reflexivity || (left; reflexivity) || (right; reflexivity)). }
  all: rewrite (update_unfold _ _ Hdt); cbv zeta;
    rewrite collisionDetection_after_integration;
    destruct Hm as [-> | ->];
    change (collisionDetection (setIntegrationMethod _ two_at_rest)) with false;
    cbv iota;
    rewrite !bodies_trackEnergyConservation, !bodies_updateSpatialHash;
    rewrite ?position_updateTrails, ?velocity_updateTrails.
  - change (integrate ?dt ?e) with (updateEuler dt e).
    unfold updateEuler, add, multiply, vec_of. simpl. repeat f_equal; lra.
  - change (integrate ?dt ?e) with (updateVerlet dt e).
    unfold updateVerlet, verletStep, add, multiply, vec_of. simpl.
    repeat f_equal; lra.
  - change (integrate ?dt ?e) with (updateEuler dt e).
    unfold updateEuler, add, multiply, vec_of. simpl. repeat f_equal; lra.
  - change (integrate ?dt ?e) with (updateVerlet dt e).
    unfold updateVerlet, verletStep, add, multiply, vec_of. simpl.
    repeat f_equal; lra.
Qed.

(** C1: with euler or verlet selected, [update] does not recompute the
    accelerations.  Two unit masses at rest one unit apart, time scale 1,
    [update(1/60)]: the force model, run on the current positions, gives
    accelerations [a] and [-a] along x with [a = G / (1 + softening^2) > 0];
    but the tick integrates with the accelerations stored in the bodies
    (zero since [addBody]), so both bodies stay at rest where they are, and
    the stored accelerations are still zero after the tick. *)
Theorem update_euler_verlet_skip_forces (m : string) :
  m = "euler"%string \/ m = "verlet"%string ->
  let e := setIntegrationMethod m two_at_rest in
  integrationMethod e = m /\
  jgt (Num (1 / 60) * timeScale e) (Num 0) = true /\
  map acceleration (bodies (calculateForces e))
    = [vec_of (6.67430e-11 / (1 + 1e-12)) 0 0;
       vec_of (- (6.67430e-11 / (1 + 1e-12))) 0 0] /\
  (0 < 6.67430e-11 / (1 + 1e-12))%R /\
  map acceleration (bodies (update (Num (1 / 60)) e)) = [zero_vec; zero_vec] /\
  map velocity (bodies (update (Num (1 / 60)) e)) = [vec_of 0 0 0; vec_of 0 0 0] /\
  map position (bodies (update (Num (1 / 60)) e)) = [vec_of 0 0 0; vec_of 1 0 0].
Proof.
  intros Hm e.
  destruct (two_at_rest_update m Hm) as (Hp & Hv & Ha).
  split; [destruct Hm as [-> | ->]; reflexivity|].
  split; [destruct Hm as [-> | ->]; apply jlt_Num_true; lra|].
  split; [unfold e; rewrite two_at_rest_forces; reflexivity|].
  split; [lra|].
  split; [exact Ha|]. split; [exact Hv|exact Hp].
Qed.

Lemma update_euler_verlet_skip_forces_witness :
  let e := setIntegrationMethod "euler" two_at_rest in
  integrationMethod e = "euler"%string /\
  jgt (Num (1 / 60) * timeScale e) (Num 0) = true /\
  map acceleration (bodies (calculateForces e))
    = [vec_of (6.67430e-11 / (1 + 1e-12)) 0 0;
       vec_of (- (6.67430e-11 / (1 + 1e-12))) 0 0] /\
  (0 < 6.67430e-11 / (1 + 1e-12))%R /\
  map acceleration (bodies (update (Num (1 / 60)) e)) = [zero_vec; zero_vec] /\
  map velocity (bodies (update (Num (1 / 60)) e)) = [vec_of 0 0 0; vec_of 0 0 0] /\
  map position (bodies (update (Num (1 / 60)) e)) = [vec_of 0 0 0; vec_of 1 0 0].
Proof.
  apply (update_euler_verlet_skip_forces "euler").
  left. reflexivity.
Defined.

(** ** The force loop on the Figure-8 preset *)

Ltac force_step i j px py pz qx qy qz d :=
  erewrite (calculateForceBetween_real _ _ _ i j _ _ 6.67430e-11 1e-6 1 1
                                       px py pz qx qy qz d);
    [ | reflexivity | reflexivity | reflexivity | reflexivity
      | reflexivity | lra | reflexivity | lra | reflexivity | reflexivity
      | lra | lra | lra ];
  cbv zeta; simpl alter.

Lemma figure8_forces :
  calculateForces figure8 =
  with_forces figure8
    [set_acceleration figure8_body0 (vec_of (2 * pull 2 + 2 * pull 1) 0 0);
     set_acceleration figure8_body1 (vec_of (- 2 * pull 2 - pull 1) 0 0);
     set_acceleration figure8_body2 (vec_of (- pull 1) 0 0)]
    5.
Proof.
  rewrite calculateForces_schedule, figure8_forcePairs, figure8_bodies.
  simpl map. simpl fold_left. unfold applyPair. simpl fst. simpl snd.
  change (set_bodies (set_stats figure8 (set_forceCalculations zero_stats 0)) ?bs)
    with (with_forces figure8 bs 0).
  force_step 0%nat 1%nat (-1)%R 0%R 0%R 1%R 0%R 0%R 2%R.
  force_step 0%nat 2%nat (-1)%R 0%R 0%R 0%R 0%R 0%R 1%R.
  force_step 1%nat 2%nat 1%R 0%R 0%R 0%R 0%R 0%R 1%R.
  force_step 1%nat 0%nat 1%R 0%R 0%R (-1)%R 0%R 0%R 2%R.
  force_step 2%nat 0%nat 0%R 0%R 0%R (-1)%R 0%R 0%R 1%R.
  f_equal.
  replace (6.67430e-11 * 1 * 1 / (2 * 2 + 1e-6 * 1e-6))%R with (pull 2)
    by (unfold pull; lra).
  replace (6.67430e-11 * 1 * 1 / (1 * 1 + 1e-6 * 1e-6))%R with (pull 1)
    by (unfold pull; lra).
  generalize (pull 1) (pull 2). intros f1 f2.
  unfold set_acceleration, figure8_body0, figure8_body1, figure8_body2, add,
    vec_of, zero_vec.
  simpl. close_reals.
Qed.

Lemma figure8_moved_rebuilt :
  spatialHash (updateSpatialHash figure8_moved) =
  [((CInt (-1), CInt 0, CInt 0), [0]%nat);
   ((CInt 0, CInt 0, CInt 0), [1]%nat);
   ((CInt 5, CInt 0, CInt 0), [2]%nat)].
Proof.
  unfold updateSpatialHash, figure8_moved, setStateVector.
  rewrite figure8_bodies. simpl.
  change {| vx := Num ?a; vy := Num ?b; vz := Num ?c |} with (vec_of a b c).
  match goal with |- context [getCellKey ?e _] =>
    rewrite (getCellKey_vec_of e 1000 (-1) 0 0 (-1) 0 0),
            (getCellKey_vec_of e 1000 1 0 0 0 0 0),
            (getCellKey_vec_of e 1000 5000 0 0 5 0 0)
      by (reflexivity || lra) end.
  reflexivity.
Qed.

(** C4: [calculateForces] evaluates a pair of bodies in neighbouring cells
    twice, and reads the spatial hash without rebuilding it.  On the
    Figure-8 preset (hash up to date) the first body is in cell (-1,0,0),
    the other two in (0,0,0).  The pair in one cell is evaluated once; each
    of the two pairs that span the cells is evaluated from either side, so
    the counter ends at 5 for 3 pairs, the outer bodies get twice the pull
    of the first body, and the central body ends with acceleration
    [- pull 1] although it sits midway between two equal masses.  On an
    engine whose third body has been moved by [setStateVector] to another
    cell, [calculateForces] leaves the hash as [addBody] built it. *)
Theorem calculateForces_double_counts_neighbours :
  spatialHash figure8 = spatialHash (updateSpatialHash figure8) /\
  evaluations (spatialHash figure8) 1 2 = 1%nat /\
  evaluations (spatialHash figure8) 0 1 = 2%nat /\
  evaluations (spatialHash figure8) 0 2 = 2%nat /\
  forceCalculations (stats (calculateForces figure8)) = 5%nat /\
  map acceleration (bodies (calculateForces figure8))
    = [vec_of (2 * pull 2 + 2 * pull 1) 0 0;
       vec_of (- 2 * pull 2 - pull 1) 0 0;
       vec_of (- pull 1) 0 0] /\
  (0 < pull 1)%R /\
  spatialHash (calculateForces figure8_moved) = spatialHash figure8 /\
  spatialHash (updateSpatialHash figure8_moved) <> spatialHash figure8.
Proof.
  split; [reflexivity|].
  unfold evaluations. rewrite figure8_forcePairs.
  split; [reflexivity|]. split; [reflexivity|]. split; [reflexivity|].
  rewrite figure8_forces.
  split; [reflexivity|]. split; [reflexivity|].
  split; [unfold pull; apply Rdiv_lt_0_compat; lra|].
  split; [rewrite spatialHash_calculateForces; reflexivity|].
  rewrite figure8_moved_rebuilt, figure8_hash. discriminate.
Qed.

(** * Further properties *)

(** ** Packing and unpacking the state vector *)

Lemma setStateVector_loop_packed (bs : list Body) :
  forall (pre : list val),
    setStateVector_loop (OArr (pre ++ flat_map components bs)) (length pre) bs = bs.
Proof.
  induction bs as [|b bs IH]; intros pre; [reflexivity|].
  simpl setStateVector_loop. simpl flat_map.
  rewrite !app_nth2_plus.
  replace (length pre) with (length pre + 0)%nat at 1 by lia.
  rewrite app_nth2_plus.
  f_equal.
  - destruct b as [i m [px py pz] [ux uy uz] a r t mt]. reflexivity.
  - specialize (IH (pre ++ components b)).
    rewrite <- app_assoc in IH. rewrite length_app in IH. simpl length in IH.
    exact IH.
Qed.

(** X1: unpacking the packed state changes nothing.  For every engine,
    [setStateVector(getStateVector())] leaves the engine as it was. *)
Theorem setStateVector_getStateVector (e : Engine) :
  setStateVector (getStateVector e) e = e.
Proof.
  unfold setStateVector, getStateVector.
  change (flat_map _ (bodies e)) with ([] ++ flat_map components (bodies e)).
  change 0%nat with (@length val []).
  rewrite (setStateVector_loop_packed (bodies e) []).
  destruct e. reflexivity.
Qed.

Lemma nth_packed_loop (l : list val) (bs : list Body) :
  forall (index k : nat),
    (k < 6 * length bs)%nat ->
    nth k (flat_map components (setStateVector_loop (OArr l) index bs)) Undefined
    = nth (index + k) l Undefined.
Proof.
  induction bs as [|b bs IH]; intros index k Hk; simpl in Hk; [lia|].
  simpl setStateVector_loop. simpl flat_map.
  do 6 (destruct k as [|k];
        [simpl; f_equal; lia|]).
  change (nth (S (S (S (S (S (S k)))))) (?a :: ?b :: ?c :: ?d :: ?f :: ?g :: ?r) Undefined)
    with (nth k r Undefined).
  rewrite IH by lia. f_equal. lia.
Qed.

Lemma length_packed (bs : list Body) :
  length (flat_map components bs) = (6 * length bs)%nat.
Proof.
  induction bs as [|b bs IH]; simpl; [reflexivity|]. rewrite IH. lia.
Qed.

(** X2: packing after unpacking an array returns the array's entries.  After
    [setStateVector(state)] on an array, [getStateVector()] has six entries
    per body, and its entry [k] is [state[k]] ([undefined] past the end of
    [state]). *)
Theorem getStateVector_setStateVector (state : list val) (e : Engine) (k : nat) :
  (k < 6 * length (bodies e))%nat ->
  get_index (getStateVector (setStateVector (OArr state) e)) k
    = get_index (OArr state) k /\
  getStateVector (setStateVector (OArr state) e)
    = OArr (flat_map components (bodies (setStateVector (OArr state) e))) /\
  length (flat_map components (bodies (setStateVector (OArr state) e)))
    = (6 * length (bodies e))%nat.
Proof.
  intros Hk. split; [|split].
  - unfold getStateVector, setStateVector. simpl.
    apply (nth_packed_loop state (bodies e) 0 k Hk).
  - reflexivity.
  - rewrite length_packed. unfold setStateVector. simpl.
    rewrite length_setStateVector_loop. reflexivity.
Qed.

Lemma getStateVector_setStateVector_witness :
  get_index (getStateVector (setStateVector (OArr [Num 7; Num 8]) two_at_rest)) 1
    = get_index (OArr [Num 7; Num 8]) 1 /\
  getStateVector (setStateVector (OArr [Num 7; Num 8]) two_at_rest)
    = OArr (flat_map components
              (bodies (setStateVector (OArr [Num 7; Num 8]) two_at_rest))) /\
  length (flat_map components
            (bodies (setStateVector (OArr [Num 7; Num 8]) two_at_rest)))
    = (6 * length (bodies two_at_rest))%nat.
Proof.
  apply (getStateVector_setStateVector [Num 7; Num 8] two_at_rest 1).
  simpl. lia.
Defined.

(** ** What a tick leaves alone in a body *)

Section BodyFrame.

Context {C : Type} (g : Body -> C).
Hypothesis g_acc : forall b a, g (set_acceleration b a) = g b.
Hypothesis g_vel : forall b v, g (set_velocity b v) = g b.
Hypothesis g_pos : forall b p, g (set_position b p) = g b.
Hypothesis g_trail : forall b t, g (set_trail b t) = g b.

Lemma frame_calculateForceBetween (e : Engine) (i j : nat) :
  map g (bodies (calculateForceBetween e i j)) = map g (bodies e).
Proof using g_acc.
  rewrite calculateForceBetween_unfold.
  destruct (bodies e !! i) as [body1|]; [|reflexivity].
  destruct (bodies e !! j) as [body2|]; [|reflexivity].
  cbv zeta. destruct (jlt _ (softening e)); [reflexivity|].
  simpl. rewrite !map_alter_proj by (intros; apply g_acc). reflexivity.
Qed.

Lemma frame_calculateForces (e : Engine) :
  map g (bodies (calculateForces e)) = map g (bodies e).
Proof using g_acc.
  unfold calculateForces.
  rewrite (force_loop_proj (fun e => map g (bodies e)))
    by apply frame_calculateForceBetween.
  simpl. rewrite map_map. apply map_ext. intros b. apply g_acc.
Qed.

Lemma frame_setStateVector (state : obj) (e : Engine) :
  map g (bodies (setStateVector state e)) = map g (bodies e).
Proof using g_vel g_pos.
  unfold setStateVector. simpl. generalize 0%nat.
  induction (bodies e) as [|b bs IH]; intros index; simpl; [reflexivity|].
  rewrite g_vel, g_pos, IH. reflexivity.
Qed.

Lemma frame_derivativeFunction (t : val) (state : obj) (e : Engine) :
  map g (bodies (snd (derivativeFunction t state e))) = map g (bodies e).
Proof using g_acc g_vel g_pos.
  unfold derivativeFunction. simpl.
  rewrite frame_calculateForces. apply frame_setStateVector.
Qed.

Lemma frame_updateRK4 (dt : val) (e : Engine) :
  map g (bodies (updateRK4 dt e)) = map g (bodies e).
Proof using g_acc g_vel g_pos.
  unfold updateRK4.
  pose proof (rk4Step_inv (fun s => map g (bodies s) = map g (bodies e))
                          derivativeFunction) as H.
  specialize (H (fun t y s Hs => eq_trans (frame_derivativeFunction t y s) Hs)
                (Num 0) (getStateVector e) dt e eq_refl).
  destruct (rk4Step derivativeFunction _ _ dt e) as [newState e'].
  simpl in H. rewrite frame_setStateVector. exact H.
Qed.

Lemma frame_integrate (dt : val) (e : Engine) :
  map g (bodies (integrate dt e)) = map g (bodies e).
Proof using g_acc g_vel g_pos.
  unfold integrate.
  repeat match goal with |- context [if ?b then _ else _] => destruct b end;
    try apply frame_updateRK4.
  - unfold updateVerlet. simpl. rewrite map_map. apply map_ext.
    intros b. rewrite g_vel, g_pos. reflexivity.
  - unfold updateEuler. simpl. rewrite map_map. apply map_ext.
    intros b. rewrite g_pos, g_vel. reflexivity.
Qed.

Lemma frame_updateTrails (e : Engine) :
  map g (bodies (updateTrails e)) = map g (bodies e).
Proof using g_trail.
  unfold updateTrails. simpl. rewrite map_map. apply map_ext.
  intros b. apply g_trail.
Qed.

Lemma frame_resolveCollision (e : Engine) (i j : nat) :
  map g (bodies (resolveCollision e i j)) = map g (bodies e).
Proof using g_vel.
  unfold resolveCollision.
  destruct (bodies e !! i) as [body1|]; [|reflexivity].
  destruct (bodies e !! j) as [body2|]; [|reflexivity].
  cbv zeta. destruct (jgt _ (Num 0)); [reflexivity|].
  simpl. rewrite !map_alter_proj by (intros; apply g_vel). reflexivity.
Qed.

Lemma frame_handleCollisions (e : Engine) :
  map g (bodies (handleCollisions e)) = map g (bodies e).
Proof using g_vel.
  unfold handleCollisions. cbv zeta.
  rewrite (fold_left_proj (fun e => map g (bodies e))).
  - reflexivity.
  - intros a i. apply (fold_left_proj (fun e => map g (bodies e))).
    intros a' j. unfold collidePair.
    destruct (bodies a' !! i) as [body1|]; [|reflexivity].
    destruct (bodies a' !! j) as [body2|]; [|reflexivity].
    cbv zeta. destruct (jlt _ _); [|reflexivity].
    apply frame_resolveCollision.
Qed.

Lemma frame_update (deltaTime : val) (e : Engine) :
  map g (bodies (update deltaTime e)) = map g (bodies e).
Proof using g_acc g_vel g_pos g_trail.
  unfold update. cbv zeta.
  destruct (jle _ (Num 0)); [reflexivity|].
  rewrite bodies_trackEnergyConservation, bodies_updateSpatialHash.
  match goal with |- context [if ?b then handleCollisions ?x else ?x] =>
    assert (Hc : map g (bodies (if b then handleCollisions x else x))
                 = map g (bodies x))
      by (destruct b; [apply frame_handleCollisions|reflexivity]);
    rewrite Hc; clear Hc end.
  rewrite frame_updateTrails, frame_integrate. reflexivity.
Qed.

End BodyFrame.

(** X3: a tick keeps the registry.  For every engine, method and
    [deltaTime], [update] neither adds nor removes a body and changes no
    body's id, mass, radius or trail cap. *)
Theorem update_keeps_registry (deltaTime : val) (e : Engine) :
  length (bodies (update deltaTime e)) = length (bodies e) /\
  map id (bodies (update deltaTime e)) = map id (bodies e) /\
  map mass (bodies (update deltaTime e)) = map mass (bodies e) /\
  map radius (bodies (update deltaTime e)) = map radius (bodies e) /\
  map maxTrailLength (bodies (update deltaTime e)) = map maxTrailLength (bodies e).
Proof.
  assert (Hid : map id (bodies (update deltaTime e)) = map id (bodies e))
    by (apply frame_update; reflexivity).
  split.
  - rewrite <- (length_map id), Hid. apply length_map.
  - split; [exact Hid|].
    repeat split; apply frame_update; reflexivity.
Qed.

(** X4: the collision resolver changes velocities only.  For every engine,
    [handleCollisions] leaves every body as it was up to its velocity (in
    particular positions are not corrected), and leaves the spatial hash,
    the energy baseline and the force counter alone. *)
Theorem handleCollisions_changes_velocities_only (e : Engine) :
  map (fun b => set_velocity b zero_vec) (bodies (handleCollisions e))
    = map (fun b => set_velocity b zero_vec) (bodies e) /\
  map position (bodies (handleCollisions e)) = map position (bodies e) /\
  spatialHash (handleCollisions e) = spatialHash e /\
  initialEnergy (handleCollisions e) = initialEnergy e /\
  forceCalculations (stats (handleCollisions e)) = forceCalculations (stats e).
Proof.
  split; [apply frame_handleCollisions; reflexivity|].
  split; [apply frame_handleCollisions; reflexivity|].
  split; [apply (config_handleCollisions spatialHash); reflexivity|].
  split; [apply (config_handleCollisions initialEnergy); reflexivity|].
  unfold handleCollisions. cbv zeta.
  rewrite (fold_left_proj (fun e => forceCalculations (stats e))).
  - reflexivity.
  - intros a i. apply (fold_left_proj (fun e => forceCalculations (stats e))).
    intros a' j. unfold collidePair.
    destruct (bodies a' !! i) as [body1|]; [|reflexivity].
    destruct (bodies a' !! j) as [body2|]; [|reflexivity].
    cbv zeta. destruct (jlt _ _); [|reflexivity].
    unfold incr_collisions. simpl.
    apply (config_resolveCollision (fun e => forceCalculations (stats e))).
    reflexivity.
Qed.

(** ** Trails *)

Lemma updateTrails_bounded (e : Engine) :
  Forall (fun b => (length (trail b) <= maxTrailLength b)%nat /\
                   ((0 < maxTrailLength b)%nat -> last (trail b) = Some (position b)))
         (bodies (updateTrails e)).
Proof.
  unfold updateTrails. simpl. apply Forall_forall. intros b' Hb'.
  apply list_elem_of_In, in_map_iff in Hb'. destruct Hb' as (b & <- & _).
  simpl. split.
  - rewrite length_drop, length_app. simpl. lia.
  - intros Hpos. rewrite length_app. simpl.
    rewrite drop_app_le by lia. apply last_snoc.
Qed.

(** X5: the trail is a bounded queue of positions.  After a tick that
    steps ([deltaTime * timeScale <= 0] false), every body's trail is at
    most [maxTrailLength] long and, when that cap is positive, ends with
    the body's current position. *)
Theorem update_trails_bounded (deltaTime : val) (e : Engine) :
  jle (deltaTime * timeScale e) (Num 0) = false ->
  Forall (fun b => (length (trail b) <= maxTrailLength b)%nat /\
                   ((0 < maxTrailLength b)%nat -> last (trail b) = Some (position b)))
         (bodies (update deltaTime e)).
Proof.
  intros Hdt. rewrite (update_unfold _ _ Hdt). cbv zeta.
  rewrite bodies_trackEnergyConservation, bodies_updateSpatialHash.
  set (x := updateTrails _).
  set (view := fun b : Body => (trail b, maxTrailLength b, position b)).
  assert (Hview : map view (bodies (if collisionDetection x then handleCollisions x else x))
                  = map view (bodies x)).
  { destruct (collisionDetection x); [|reflexivity].
    apply frame_handleCollisions. reflexivity. }
  pose proof (updateTrails_bounded
                (integrate (deltaTime * timeScale e)
                   (set_stats e (set_integrationSteps (stats e)
                                   (S (integrationSteps (stats e))))))) as Hb.
  fold x in Hb.
  set (P := fun v : list vec * nat * vec =>
              (length (fst (fst v)) <= snd (fst v))%nat /\
              ((0 < snd (fst v))%nat -> last (fst (fst v)) = Some (snd v))).
  assert (Hmap : forall l : list Body,
             Forall (fun b => (length (trail b) <= maxTrailLength b)%nat /\
                              ((0 < maxTrailLength b)%nat ->
                               last (trail b) = Some (position b))) l
             <-> Forall P (map view l)).
  { intros l. rewrite Forall_fmap. reflexivity. }
  apply Hmap. rewrite Hview. apply Hmap. exact Hb.
Qed.

Lemma update_trails_bounded_witness :
  Forall (fun b => (length (trail b) <= maxTrailLength b)%nat /\
                   ((0 < maxTrailLength b)%nat -> last (trail b) = Some (position b)))
         (bodies (update (Num (1 / 60)) figure8)).
Proof.
  apply (update_trails_bounded (Num (1 / 60)) figure8).
  apply jle_Num_false. lra.
Defined.

(** ** The spatial hash between ticks *)

Lemma rebuild_cellsize (e e' : Engine) (bs : list Body) :
  hashCellSize e = hashCellSize e' ->
  forall i h, rebuild e bs i h = rebuild e' bs i h.
Proof.
  intros Hc. induction bs as [|b bs IH]; intros i h; simpl; [reflexivity|].
  rewrite IH. unfold getCellKey. rewrite Hc. reflexivity.
Qed.

Lemma hash_fresh_intro (e x : Engine) :
  spatialHash e = spatialHash (updateSpatialHash x) ->
  bodies e = bodies x ->
  hashCellSize e = hashCellSize x ->
  hash_fresh e.
Proof.
  intros Hh Hb Hc. unfold hash_fresh. rewrite Hh.
  unfold updateSpatialHash. simpl. rewrite Hb.
  symmetry. apply rebuild_cellsize, Hc.
Qed.

Lemma hash_fresh_transfer (e e' : Engine) :
  spatialHash e' = spatialHash e ->
  bodies e' = bodies e ->
  hashCellSize e' = hashCellSize e ->
  hash_fresh e -> hash_fresh e'.
Proof.
  intros Hh Hb Hc Hf. unfold hash_fresh in *. rewrite Hh, Hf.
  unfold updateSpatialHash. simpl. rewrite Hb.
  apply rebuild_cellsize. symmetry. exact Hc.
Qed.

Lemma hash_fresh_updateSpatialHash (x : Engine) : hash_fresh (updateSpatialHash x).
Proof. apply (hash_fresh_intro _ x); reflexivity. Qed.

Lemma spatialHash_trackEnergyConservation (e : Engine) :
  spatialHash (trackEnergyConservation e) = spatialHash e.
Proof.
  unfold trackEnergyConservation.
  destruct (negb (energyConservation e)); [reflexivity|].
  destruct (jeq (initialEnergy e) (Num 0)); reflexivity.
Qed.

Lemma hashCellSize_trackEnergyConservation (e : Engine) :
  hashCellSize (trackEnergyConservation e) = hashCellSize e.
Proof.
  unfold trackEnergyConservation.
  destruct (negb (energyConservation e)); [reflexivity|].
  destruct (jeq (initialEnergy e) (Num 0)); reflexivity.
Qed.

(** X6: the spatial hash stays up to date.  If the hash is what
    [updateSpatialHash] would build, it still is after [addBody],
    [removeBody], [update], [reset], [setTimeScale], [setIntegrationMethod]
    and [setCollisionDetection]; the constructor's hash is up to date. *)
Theorem hash_fresh_kept
        (e : Engine) (mass : val) (position velocity : vec) (bodyId : nat)
        (deltaTime scale : val) (method : string) (enabled : bool) :
  hash_fresh e ->
  hash_fresh PhysicsEngine.constructor /\
  hash_fresh (snd (addBody mass position velocity e)) /\
  hash_fresh (snd (removeBody bodyId e)) /\
  hash_fresh (update deltaTime e) /\
  hash_fresh (reset e) /\
  hash_fresh (setTimeScale scale e) /\
  hash_fresh (setIntegrationMethod method e) /\
  hash_fresh (setCollisionDetection enabled e).
Proof.
  intros Hf.
  split; [reflexivity|].
  split.
  { unfold addBody. destruct (_ <=? _)%nat; [exact Hf|].
    apply hash_fresh_updateSpatialHash. }
  split.
  { unfold removeBody. destruct (list_find _ _) as [[index b]|]; [|exact Hf].
    apply hash_fresh_updateSpatialHash. }
  split.
  { unfold update. cbv zeta. destruct (jle _ (Num 0)); [exact Hf|].
    match goal with |- hash_fresh (trackEnergyConservation (updateSpatialHash ?x)) =>
      apply (hash_fresh_intro _ x) end.
    - apply spatialHash_trackEnergyConservation.
    - rewrite bodies_trackEnergyConservation. reflexivity.
    - rewrite hashCellSize_trackEnergyConservation. reflexivity. }
  split; [reflexivity|].
  split; [apply (hash_fresh_transfer e); [reflexivity..|exact Hf]|].
  split.
  { unfold setIntegrationMethod. destruct (existsb _ _); [|exact Hf].
    apply (hash_fresh_transfer e); [reflexivity..|exact Hf]. }
  apply (hash_fresh_transfer e); [reflexivity..|exact Hf].
Qed.

Lemma hash_fresh_kept_witness :
  hash_fresh PhysicsEngine.constructor /\
  hash_fresh (snd (addBody (Num 1) (vec_of 3 0 0) zero_vec figure8)) /\
  hash_fresh (snd (removeBody 0 figure8)) /\
  hash_fresh (update (Num (1 / 60)) figure8) /\
  hash_fresh (reset figure8) /\
  hash_fresh (setTimeScale (Num 2) figure8) /\
  hash_fresh (setIntegrationMethod "euler" figure8) /\
  hash_fresh (setCollisionDetection true figure8).
Proof.
  apply (hash_fresh_kept figure8 (Num 1) (vec_of 3 0 0) zero_vec 0
                         (Num (1 / 60)) (Num 2) "euler" true).
  reflexivity.
Defined.

(** ** What a rebuilt spatial hash looks like *)

Lemma hash_push_key_inv (h : hash) (k : cellkey) (i : nat) (k' : cellkey) :
  In k' (map fst (hash_push h k i)) -> k' = k \/ In k' (map fst h).
Proof.
  induction h as [|[k0 b] h IH]; simpl.
  - intros [->|[]]. left. reflexivity.
  - destruct (decide (k0 = k)) as [->|Hne]; simpl.
    + intros [->|H]; [left; reflexivity|right; right; exact H].
    + intros [->|H]; [right; left; reflexivity|].
      destruct (IH H) as [->|H']; [left; reflexivity|right; right; exact H'].
Qed.

Lemma hash_push_keys_nodup (h : hash) (k : cellkey) (i : nat) :
  List.NoDup (map fst h) -> List.NoDup (map fst (hash_push h k i)).
Proof.
  induction h as [|[k0 b] h IH]; simpl; intros Hnd.
  - constructor; [intros []|constructor].
  - inversion Hnd as [|? ? Hnot Hnd']; subst.
    destruct (decide (k0 = k)) as [->|Hne]; simpl.
    + constructor; assumption.
    + constructor; [|apply IH, Hnd'].
      intros Hin. apply hash_push_key_inv in Hin.
      destruct Hin as [->|Hin]; [apply Hne; reflexivity|apply Hnot, Hin].
Qed.

Lemma hash_push_concat (h : hash) (k : cellkey) (i : nat) :
  Permutation (concat (map snd (hash_push h k i))) (concat (map snd h) ++ [i]).
Proof.
  induction h as [|[k0 b] h IH]; simpl; [reflexivity|].
  destruct (decide (k0 = k)) as [->|Hne]; simpl.
  - rewrite <- !app_assoc. apply Permutation_app_head, Permutation_app_comm.
  - rewrite <- app_assoc. apply Permutation_app_head, IH.
Qed.

Lemma hash_push_nonempty (h : hash) (k : cellkey) (i : nat) :
  Forall (fun kb : cellkey * list nat => snd kb <> []) h ->
  Forall (fun kb : cellkey * list nat => snd kb <> []) (hash_push h k i).
Proof.
  induction h as [|[k0 b] h IH]; simpl; intros Hf.
  - constructor; [discriminate|constructor].
  - inversion Hf as [|? ? Hb Hf']; subst.
    destruct (decide (k0 = k)) as [->|Hne].
    + constructor; [|exact Hf']. simpl. destruct b; discriminate.
    + constructor; [exact Hb|apply IH, Hf'].
Qed.

Lemma rebuild_partition (e : Engine) (bs : list Body) :
  forall (i0 : nat) (h : hash),
    List.NoDup (map fst h) ->
    Forall (fun kb : cellkey * list nat => snd kb <> []) h ->
    List.NoDup (map fst (rebuild e bs i0 h)) /\
    Permutation (concat (map snd (rebuild e bs i0 h)))
                (concat (map snd h) ++ seq i0 (length bs)) /\
    Forall (fun kb : cellkey * list nat => snd kb <> []) (rebuild e bs i0 h).
Proof.
  induction bs as [|b bs IH]; intros i0 h Hnd Hne; simpl.
  - rewrite app_nil_r. repeat split; [assumption|reflexivity|assumption].
  - destruct (IH (S i0) (hash_push h (getCellKey e (position b)) i0)
                 (hash_push_keys_nodup _ _ _ Hnd)
                 (hash_push_nonempty _ _ _ Hne)) as (H1 & H2 & H3).
    repeat split; [exact H1| |exact H3].
    etransitivity; [exact H2|].
    rewrite hash_push_concat, <- app_assoc. reflexivity.
Qed.

(** X7: the rebuilt hash partitions the bodies.  After [updateSpatialHash]
    the cell keys are pairwise distinct, no bucket is empty, and the buckets
    together hold every body index [0 .. n-1] exactly once. *)
Theorem updateSpatialHash_partition (e : Engine) :
  List.NoDup (map fst (spatialHash (updateSpatialHash e))) /\
  Permutation (concat (map snd (spatialHash (updateSpatialHash e))))
              (seq 0 (length (bodies e))) /\
  Forall (fun kb : cellkey * list nat => snd kb <> [])
         (spatialHash (updateSpatialHash e)).
Proof.
  apply (rebuild_partition e (bodies e) 0 []); constructor.
Qed.

Lemma hash_push_in_cell_inv (h : hash) (k : cellkey) (i : nat)
      (k0 : cellkey) (x : nat) :
  in_cell (hash_push h k i) k0 x -> (k0 = k /\ x = i) \/ in_cell h k0 x.
Proof.
  induction h as [|[k' bucket] h IH]; intros (b & Hget & Hin).
  - simpl in Hget. destruct (decide (k = k0)) as [->|Hne]; [|discriminate].
    injection Hget as <-. destruct Hin as [<-|[]]. left. split; reflexivity.
  - simpl hash_push in Hget. destruct (decide (k' = k)) as [->|Hne].
    + destruct (decide (k = k0)) as [->|Hne0].
      * rewrite hash_get_here in Hget. injection Hget as <-.
        apply in_app_or in Hin. destruct Hin as [Hin|[<-|[]]].
        -- right. exists bucket. rewrite hash_get_here. split; [reflexivity|exact Hin].
        -- left. split; reflexivity.
      * rewrite hash_get_further in Hget by exact Hne0.
        right. exists b. rewrite hash_get_further by exact Hne0. split; assumption.
    + destruct (decide (k' = k0)) as [->|Hne0].
      * rewrite hash_get_here in Hget. injection Hget as <-.
        right. exists bucket. rewrite hash_get_here. split; [reflexivity|exact Hin].
      * rewrite hash_get_further in Hget by exact Hne0.
        destruct (IH (ex_intro _ b (conj Hget Hin))) as [Heq|(b' & Hget' & Hin')].
        -- left. exact Heq.
        -- right. exists b'. rewrite hash_get_further by exact Hne0.
           split; assumption.
Qed.

Lemma rebuild_in_cell_inv (e : Engine) (bs : list Body) :
  forall (pre : list Body) (h : hash) (k : cellkey) (x : nat),
    in_cell (rebuild e bs (length pre) h) k x ->
    in_cell h k x \/
    exists b, (pre ++ bs) !! x = Some b /\ getCellKey e (position b) = k.
Proof.
  induction bs as [|b bs IH]; intros pre h k x Hx; simpl in Hx.
  - left. exact Hx.
  - specialize (IH (pre ++ [b]) (hash_push h (getCellKey e (position b)) (length pre)) k x).
    rewrite length_app in IH. simpl length in IH.
    replace (length pre + 1)%nat with (S (length pre)) in IH by lia.
    rewrite <- app_assoc in IH. simpl app in IH.
    destruct (IH Hx) as [Hin|Hex]; [|right; exact Hex].
    apply hash_push_in_cell_inv in Hin. destruct Hin as [[-> ->]|Hin].
    + right. exists b. split; [|reflexivity].
      rewrite lookup_app_r by lia. rewrite Nat.sub_diag. reflexivity.
    + left. exact Hin.
Qed.

(** X8: a bucket holds exactly the bodies of its cell.  After
    [updateSpatialHash], body index [x] is in the bucket stored under key
    [k] if and only if [x] refers to a body whose [getCellKey] is [k]. *)
Theorem updateSpatialHash_buckets (e : Engine) (k : cellkey) (x : nat) :
  in_cell (spatialHash (updateSpatialHash e)) k x <->
  exists b, bodies e !! x = Some b /\ getCellKey e (position b) = k.
Proof.
  split.
  - intros Hin.
    destruct (rebuild_in_cell_inv e (bodies e) [] [] k x Hin) as [(b & Hget & _)|H].
    + discriminate.
    + exact H.
  - intros (b & Hb & <-). apply updateSpatialHash_in_cell, Hb.
Qed.

(** ** Neighbouring cells *)

Lemma getNeighboringCells_length (cell : cellkey) :
  length (getNeighboringCells cell) = 26%nat.
Proof. destruct cell as [[x y] z]. reflexivity. Qed.

Lemma getNeighboringCells_offsets (x y z : Z) :
  getNeighboringCells (CInt x, CInt y, CInt z) =
  map (fun d : Z * Z * Z =>
         (CInt (x + fst (fst d)), CInt (y + snd (fst d)), CInt (z + snd d)))
      neighbour_offsets.
Proof. reflexivity. Qed.

Lemma neighbour_offsets_bounds :
  Forall (fun d : Z * Z * Z =>
            (-1 <= fst (fst d) <= 1 /\ -1 <= snd (fst d) <= 1 /\ -1 <= snd d <= 1 /\
             ~ (fst (fst d) = 0 /\ snd (fst d) = 0 /\ snd d = 0))%Z)
         neighbour_offsets.
Proof. vm_compute neighbour_offsets. repeat constructor; simpl; lia. Qed.

Lemma neighbour_offsets_NoDup : List.NoDup neighbour_offsets.
Proof.
  apply NoDup_ListNoDup. vm_compute neighbour_offsets.
  apply (bool_decide_unpack _). vm_compute. exact I.
Qed.

Lemma neighbour_is_shift (x y z : Z) (k : cellkey) :
  In k (getNeighboringCells (CInt x, CInt y, CInt z)) ->
  exists dx dy dz : Z,
    k = (CInt (x + dx), CInt (y + dy), CInt (z + dz)) /\
    (-1 <= dx <= 1)%Z /\ (-1 <= dy <= 1)%Z /\ (-1 <= dz <= 1)%Z /\
    ~ (dx = 0 /\ dy = 0 /\ dz = 0)%Z.
Proof.
  rewrite getNeighboringCells_offsets. intros Hin.
  apply in_map_iff in Hin. destruct Hin as ([[dx dy] dz] & <- & Hd).
  pose proof neighbour_offsets_bounds as Hb.
  rewrite Forall_forall in Hb. apply list_elem_of_In in Hd.
  specialize (Hb _ Hd). simpl in Hb.
  exists dx, dy, dz. split; [reflexivity|]. tauto.
Qed.

(** X9: the neighbours of an integer cell.  [getNeighboringCells] always
    returns 26 keys.  For cells whose coordinates are integers below 2^53
    in absolute value (where adding -1, 0 or 1 is exact for the code's
    numbers), the 26 keys are pairwise distinct and are exactly the cells
    other than the cell itself whose coordinates differ from it by at most
    1; so being a neighbour is symmetric. *)
Theorem getNeighboringCells_integer (x y z x' y' z' : Z) (cell : cellkey) :
  (Z.abs x < 9007199254740992)%Z ->
  (Z.abs y < 9007199254740992)%Z ->
  (Z.abs z < 9007199254740992)%Z ->
  (Z.abs x' < 9007199254740992)%Z ->
  (Z.abs y' < 9007199254740992)%Z ->
  (Z.abs z' < 9007199254740992)%Z ->
  length (getNeighboringCells cell) = 26%nat /\
  List.NoDup (getNeighboringCells (CInt x, CInt y, CInt z)) /\
  (In (CInt x', CInt y', CInt z') (getNeighboringCells (CInt x, CInt y, CInt z))
   <-> (Z.abs (x' - x) <= 1 /\ Z.abs (y' - y) <= 1 /\ Z.abs (z' - z) <= 1 /\
        ~ (x' = x /\ y' = y /\ z' = z))%Z) /\
  (In (CInt x', CInt y', CInt z') (getNeighboringCells (CInt x, CInt y, CInt z))
   <-> In (CInt x, CInt y, CInt z) (getNeighboringCells (CInt x', CInt y', CInt z'))).
Proof.
  intros _ _ _ _ _ _.
  assert (Hchar : forall a b c a' b' c' : Z,
    In (CInt a', CInt b', CInt c') (getNeighboringCells (CInt a, CInt b, CInt c))
    <-> (Z.abs (a' - a) <= 1 /\ Z.abs (b' - b) <= 1 /\ Z.abs (c' - c) <= 1 /\
         ~ (a' = a /\ b' = b /\ c' = c))%Z).
  { intros a b c a' b' c'. split.
    - intros Hin. apply neighbour_is_shift in Hin.
      destruct Hin as (dx & dy & dz & Heq & Hx & Hy & Hz & Hnz).
      injection Heq as -> -> ->. lia.
    - intros (Hx & Hy & Hz & Hne).
      replace a' with (a + (a' - a))%Z by lia.
      replace b' with (b + (b' - b))%Z by lia.
      replace c' with (c + (c' - c))%Z by lia.
      destruct (neighbour_of_shift a b c (a' - a) (b' - b) (c' - c))
        as [Heq|Hin]; try lia.
      + exfalso. injection Heq as H1 H2 H3. apply Hne. lia.
      + exact Hin. }
  split; [apply getNeighboringCells_length|].
  split.
  { rewrite getNeighboringCells_offsets.
    apply Finite.Injective_map_NoDup; [|exact neighbour_offsets_NoDup].
    intros [[a b] c] [[a' b'] c'] Heq. simpl in Heq.
    injection Heq as H1 H2 H3. repeat f_equal; lia. }
  split; [apply Hchar|].
  rewrite !Hchar. lia.
Qed.

Lemma getNeighboringCells_integer_witness :
  length (getNeighboringCells (CInt 0, CInt 0, CInt 0)) = 26%nat /\
  List.NoDup (getNeighboringCells (CInt 0, CInt 0, CInt 0)) /\
  (In (CInt 1, CInt 0, CInt (-1)) (getNeighboringCells (CInt 0, CInt 0, CInt 0))
   <-> (Z.abs (1 - 0) <= 1 /\ Z.abs (0 - 0) <= 1 /\ Z.abs (-1 - 0) <= 1 /\
        ~ (1 = 0 /\ 0 = 0 /\ -1 = 0))%Z) /\
  (In (CInt 1, CInt 0, CInt (-1)) (getNeighboringCells (CInt 0, CInt 0, CInt 0))
   <-> In (CInt 0, CInt 0, CInt 0) (getNeighboringCells (CInt 1, CInt 0, CInt (-1)))).
Proof.
  apply (getNeighboringCells_integer 0 0 0 1 0 (-1) (CInt 0, CInt 0, CInt 0));
    simpl; lia.
Defined.

Lemma flat_map_repeat {A B : Type} (f : A -> list B) (a : A) (n : nat) :
  flat_map f (repeat a n) = concat (repeat (f a) n).
Proof. induction n as [|n IH]; simpl; [reflexivity|]. rewrite IH. reflexivity. Qed.

(** X10: a cell key without numbers is its own neighbour.  A position whose
    coordinates are [undefined] or NaN is filed under the key of three NaN,
    and each of the 26 neighbours of that key is the key itself: for a hash
    that holds this one cell, the force loop makes the calls for the pairs
    within the bucket and then, 26 times over, the calls for every body of
    the bucket with every body of the bucket, itself included. *)
Theorem getNeighboringCells_nan (e : Engine) (bucket : list nat) :
  getCellKey e undefined_vec = (CNaN, CNaN, CNaN) /\
  getCellKey e nan_vec = (CNaN, CNaN, CNaN) /\
  getNeighboringCells (CNaN, CNaN, CNaN) = repeat (CNaN, CNaN, CNaN) 26 /\
  forcePairs [((CNaN, CNaN, CNaN), bucket)]
    = intraPairs bucket ++ concat (repeat (crossPairs bucket bucket) 26).
Proof.
  split; [reflexivity|]. split; [reflexivity|]. split; [reflexivity|].
  unfold forcePairs, cellPairs. simpl map. cbn [flat_map].
  rewrite app_nil_r, hash_get_here.
  change (getNeighboringCells (CNaN, CNaN, CNaN)) with (repeat (CNaN, CNaN, CNaN) 26).
  rewrite flat_map_repeat. cbv beta. rewrite hash_get_here. reflexivity.
Qed.

(** ** The registry: ids, lookups, capacity *)

Lemma find_by_index (bs : list Body) :
  forall start k : nat,
    map id bs = seq start (length bs) ->
    snd <$> list_find (fun body => id body = (start + k)%nat) bs = bs !! k.
Proof.
  induction bs as [|b bs IH]; intros start k Hids; [reflexivity|].
  simpl in Hids. injection Hids as Hb Hrest. simpl.
  destruct (decide (id b = (start + k)%nat)) as [Heq|Hne].
  - assert (k = 0%nat) as -> by lia. reflexivity.
  - destruct k as [|k]; [exfalso; apply Hne; lia|].
    specialize (IH (S start) k Hrest).
    replace (start + S k)%nat with (S start + k)%nat by lia.
    simpl. rewrite <- IH.
    destruct (list_find _ bs) as [[i x]|]; reflexivity.
Qed.

Lemma find_beyond (bs : list Body) (bodyId : nat) :
  (forall b, In b bs -> id b <> bodyId) ->
  list_find (fun body => id body = bodyId) bs = None.
Proof.
  induction bs as [|b bs IH]; intros Hall; [reflexivity|]. simpl.
  destruct (decide (id b = bodyId)) as [Heq|_].
  - exfalso. apply (Hall b); [left; reflexivity|exact Heq].
  - rewrite IH; [reflexivity|]. intros b' Hb'. apply Hall. right. exact Hb'.
Qed.

(** X11: without removals an id is the body's place in the array.  The
    constructor's and [reset]'s registries have this property, [addBody]
    and [update] keep it, and with it [getBody(id)] is [bodies[id]]
    ([undefined] from the length on) and the ids are pairwise different. *)
Theorem ids_are_indices_kept
        (e : Engine) (mass : val) (position velocity : vec) (deltaTime : val)
        (bodyId : nat) :
  ids_are_indices e ->
  ids_are_indices PhysicsEngine.constructor /\
  ids_are_indices (reset e) /\
  ids_are_indices (snd (addBody mass position velocity e)) /\
  ids_are_indices (update deltaTime e) /\
  getBody bodyId e = bodies e !! bodyId /\
  List.NoDup (map id (bodies e)).
Proof.
  intros Hids. unfold ids_are_indices in *.
  split; [reflexivity|]. split; [reflexivity|].
  split.
  { unfold addBody. destruct (_ <=? _)%nat; [exact Hids|].
    cbv zeta. cbn [snd]. rewrite bodies_updateSpatialHash. simpl.
    rewrite map_app, length_app, Hids. simpl.
    rewrite Nat.add_1_r, seq_S. reflexivity. }
  split.
  { assert (Hid : map id (bodies (update deltaTime e)) = map id (bodies e))
      by (apply frame_update; reflexivity).
    rewrite <- (length_map id), Hid, length_map. exact Hids. }
  split.
  { unfold getBody. apply (find_by_index (bodies e) 0 bodyId Hids). }
  rewrite Hids. apply List.seq_NoDup.
Qed.

Lemma ids_are_indices_kept_witness :
  ids_are_indices PhysicsEngine.constructor /\
  ids_are_indices (reset figure8) /\
  ids_are_indices (snd (addBody (Num 1) (vec_of 3 0 0) zero_vec figure8)) /\
  ids_are_indices (update (Num (1 / 60)) figure8) /\
  getBody 2 figure8 = bodies figure8 !! 2%nat /\
  List.NoDup (map id (bodies figure8)).
Proof.
  apply (ids_are_indices_kept figure8 (Num 1) (vec_of 3 0 0) zero_vec
                              (Num (1 / 60)) 2).
  reflexivity.
Defined.

Lemma maxBodies_addBody (mass : val) (position velocity : vec) (e : Engine) :
  maxBodies (snd (addBody mass position velocity e)) = maxBodies e.
Proof. unfold addBody. destruct (_ <=? _)%nat; reflexivity. Qed.

Lemma length_addBody (mass : val) (position velocity : vec) (e : Engine) :
  length (bodies (snd (addBody mass position velocity e)))
  = if (maxBodies e <=? length (bodies e))%nat then length (bodies e)
    else S (length (bodies e)).
Proof.
  unfold addBody. destruct (_ <=? _)%nat; [reflexivity|].
  cbv zeta. cbn [snd]. rewrite bodies_updateSpatialHash. simpl.
  rewrite length_app. simpl. lia.
Qed.

Lemma prefix_addBody (mass : val) (position velocity : vec) (e : Engine) :
  take (length (bodies e)) (bodies (snd (addBody mass position velocity e)))
  = bodies e.
Proof.
  unfold addBody. destruct (_ <=? _)%nat.
  - simpl. apply firstn_all.
  - cbv zeta. cbn [snd]. rewrite bodies_updateSpatialHash. simpl.
    rewrite take_app_length. reflexivity.
Qed.

(** X12: the registry fills up to [maxBodies] and no further.  From a
    registry within its capacity, a run of [addBody] calls leaves
    [min (count + calls) maxBodies] bodies: the calls beyond the capacity
    add nothing.  The bodies that were there stay in front, unchanged. *)
Theorem addBody_capacity (args : list (val * vec * vec)) (e : Engine) :
  (length (bodies e) <= maxBodies e)%nat ->
  length (bodies (addBodies args e))
    = Nat.min (length (bodies e) + length args) (maxBodies e) /\
  maxBodies (addBodies args e) = maxBodies e /\
  take (length (bodies e)) (bodies (addBodies args e)) = bodies e.
Proof.
  unfold addBodies. revert e.
  induction args as [|[[m p] v] args IH]; intros e Hcap; simpl.
  - split; [lia|]. split; [reflexivity|apply firstn_all].
  - pose proof (length_addBody m p v e) as Hlen.
    pose proof (maxBodies_addBody m p v e) as Hmax.
    pose proof (prefix_addBody m p v e) as Hpre.
    set (e1 := snd (addBody m p v e)) in *.
    assert (Hcap1 : (length (bodies e1) <= maxBodies e1)%nat).
    { rewrite Hlen, Hmax. destruct (Nat.leb_spec (maxBodies e) (length (bodies e))); lia. }
    destruct (IH e1 Hcap1) as (IHlen & IHmax & IHpre).
    split; [|split].
    + rewrite IHlen, Hlen, Hmax.
      destruct (Nat.leb_spec (maxBodies e) (length (bodies e))); lia.
    + rewrite IHmax. exact Hmax.
    + transitivity (take (length (bodies e)) (bodies e1)); [|exact Hpre].
      rewrite <- IHpre at 1. rewrite take_take. f_equal.
      rewrite Hlen. destruct (_ <=? _)%nat; lia.
Qed.

Lemma addBody_capacity_witness :
  length (bodies (addBodies [(Num 1, zero_vec, zero_vec); (Num 2, zero_vec, zero_vec)]
                            figure8))
    = Nat.min (length (bodies figure8) + 2) (maxBodies figure8) /\
  maxBodies (addBodies [(Num 1, zero_vec, zero_vec); (Num 2, zero_vec, zero_vec)]
                       figure8) = maxBodies figure8 /\
  take (length (bodies figure8))
       (bodies (addBodies [(Num 1, zero_vec, zero_vec); (Num 2, zero_vec, zero_vec)]
                          figure8)) = bodies figure8.
Proof.
  apply (addBody_capacity [(Num 1, zero_vec, zero_vec); (Num 2, zero_vec, zero_vec)]
                          figure8).
  vm_compute. lia.
Defined.





(** ** Counters *)

Section StatsFrame.

Context {C : Type} (h : Stats -> C).
Hypothesis h_fc : forall s n, h (set_forceCalculations s n) = h s.
Hypothesis h_col : forall s n, h (set_collisions s n) = h s.
Hypothesis h_err : forall s v, h (set_energyError s v) = h s.

Lemma stats_calculateForceBetween (e : Engine) (i j : nat) :
  h (stats (calculateForceBetween e i j)) = h (stats e).
Proof using h_fc.
  rewrite calculateForceBetween_unfold.
  destruct (bodies e !! i) as [body1|]; [|reflexivity].
  destruct (bodies e !! j) as [body2|]; [|reflexivity].
  cbv zeta. destruct (jlt _ (softening e)); [reflexivity|].
  unfold incr_forceCalculations. simpl. apply h_fc.
Qed.

Lemma stats_calculateForces (e : Engine) :
  h (stats (calculateForces e)) = h (stats e).
Proof using h_fc.
  unfold calculateForces.
  rewrite (force_loop_proj (fun e => h (stats e)))
    by apply stats_calculateForceBetween.
  simpl. apply h_fc.
Qed.

Lemma stats_derivativeFunction (t : val) (state : obj) (e : Engine) :
  h (stats (snd (derivativeFunction t state e))) = h (stats e).
Proof using h_fc.
  unfold derivativeFunction. simpl. rewrite stats_calculateForces. reflexivity.
Qed.

Lemma stats_updateRK4 (dt : val) (e : Engine) :
  h (stats (updateRK4 dt e)) = h (stats e).
Proof using h_fc.
  unfold updateRK4.
  pose proof (rk4Step_inv (fun s => h (stats s) = h (stats e))
                          derivativeFunction) as H.
  specialize (H (fun t y s Hs => eq_trans (stats_derivativeFunction t y s) Hs)
                (Num 0) (getStateVector e) dt e eq_refl).
  destruct (rk4Step derivativeFunction _ _ dt e) as [newState e'].
  simpl in H. exact H.
Qed.

Lemma stats_integrate (dt : val) (e : Engine) :
  h (stats (integrate dt e)) = h (stats e).
Proof using h_fc.
  unfold integrate.
  repeat match goal with |- context [if ?b then _ else _] => destruct b end;
    first [ apply stats_updateRK4 | reflexivity ].
Qed.

Lemma stats_resolveCollision (e : Engine) (i j : nat) :
  stats (resolveCollision e i j) = stats e.
Proof using Type.
  apply (config_resolveCollision stats). reflexivity.
Qed.

Lemma stats_handleCollisions (e : Engine) :
  h (stats (handleCollisions e)) = h (stats e).
Proof using h_col.
  unfold handleCollisions. cbv zeta.
  rewrite (fold_left_proj (fun e => h (stats e))).
  - simpl. apply h_col.
  - intros a i. apply (fold_left_proj (fun e => h (stats e))).
    intros a' j. unfold collidePair.
    destruct (bodies a' !! i) as [body1|]; [|reflexivity].
    destruct (bodies a' !! j) as [body2|]; [|reflexivity].
    cbv zeta. destruct (jlt _ _); [|reflexivity].
    unfold incr_collisions. simpl. rewrite h_col, stats_resolveCollision.
    reflexivity.
Qed.

Lemma stats_trackEnergyConservation (e : Engine) :
  h (stats (trackEnergyConservation e)) = h (stats e).
Proof using h_err.
  unfold trackEnergyConservation.
  destruct (negb (energyConservation e)); [reflexivity|].
  destruct (jeq (initialEnergy e) (Num 0)); [reflexivity|].
  simpl. apply h_err.
Qed.

End StatsFrame.

(** X14: [integrationSteps] counts the ticks that stepped.  For every
    engine and [deltaTime], [update] adds one to the counter when
    [deltaTime * timeScale <= 0] is false and leaves it as it is otherwise;
    the force loop, the collision pass and the energy tracking do not touch
    it. *)
Theorem update_counts_steps (deltaTime : val) (e : Engine) :
  integrationSteps (stats (update deltaTime e))
  = if jle (deltaTime * timeScale e) (Num 0)
    then integrationSteps (stats e)
    else S (integrationSteps (stats e)).
Proof.
  unfold update. cbv zeta.
  destruct (jle _ (Num 0)); [reflexivity|].
  rewrite (stats_trackEnergyConservation integrationSteps) by reflexivity.
  change (stats (updateSpatialHash ?x)) with (stats x).
  match goal with |- context [if ?b then handleCollisions ?x else ?x] =>
    assert (Hc : integrationSteps (stats (if b then handleCollisions x else x))
                 = integrationSteps (stats x))
      by (destruct b;
          [apply (stats_handleCollisions integrationSteps); reflexivity
          |reflexivity]);
    rewrite Hc; clear Hc end.
  change (stats (updateTrails ?x)) with (stats x).
  rewrite (stats_integrate integrationSteps) by reflexivity.
  reflexivity.
Qed.

(** ** Configuration *)

(** X15: [setTimeScale] clamps a number into [0.01, 100].  Within that
    range the scale is stored as given, below it 0.01, above it 100.  A
    scale that is not a number is stored as NaN, and then no tick is
    skipped, whatever its [deltaTime]: the guard [dt <= 0] of [update] is
    false for NaN. *)
Theorem setTimeScale_clamps (scale deltaTime : val) (e : Engine) :
  match scale with
  | Num s =>
      exists c : R,
        timeScale (setTimeScale scale e) = Num c /\
        (0.01 <= c <= 100)%R /\
        (s <= 0.01 -> c = 0.01)%R /\
        (0.01 <= s <= 100 -> c = s)%R /\
        (100 <= s -> c = 100)%R
  | _ =>
      timeScale (setTimeScale scale e) = NaN /\
      jle (deltaTime * timeScale (setTimeScale scale e)) (Num 0) = false
  end.
Proof.
  destruct scale as [s| |].
  - exists (Rmin (Rmax s 0.01) 100). split; [reflexivity|].
    unfold Rmin, Rmax.
    destruct (Rle_dec s 0.01); destruct (Rle_dec _ 100);
      repeat split; intros; lra.
  - split; [reflexivity|]. destruct deltaTime; reflexivity.
  - split; [reflexivity|]. destruct deltaTime; reflexivity.
Qed.

Section ConfigTick.

Context {C : Type} (g : Engine -> C).
Hypothesis g_bodies : forall e bs, g (set_bodies e bs) = g e.
Hypothesis g_stats : forall e s, g (set_stats e s) = g e.
Hypothesis g_hash : forall e h, g (set_spatialHash e h) = g e.
Hypothesis g_energy : forall e v, g (set_initialEnergy e v) = g e.

Lemma config_trackEnergyConservation (e : Engine) :
  g (trackEnergyConservation e) = g e.
Proof using g_stats g_energy.
  unfold trackEnergyConservation.
  destruct (negb (energyConservation e)); [reflexivity|].
  destruct (jeq (initialEnergy e) (Num 0)); [apply g_energy|apply g_stats].
Qed.

Lemma config_update (deltaTime : val) (e : Engine) : g (update deltaTime e) = g e.
Proof using g_bodies g_stats g_hash g_energy.
  unfold update. cbv zeta. destruct (jle _ (Num 0)); [reflexivity|].
  rewrite config_trackEnergyConservation. unfold updateSpatialHash.
  rewrite g_hash.
  match goal with |- context [if ?b then handleCollisions ?x else ?x] =>
    assert (Hc : g (if b then handleCollisions x else x) = g x)
      by (destruct b; [apply config_handleCollisions; assumption|reflexivity]);
    rewrite Hc; clear Hc end.
  rewrite (config_updateTrails g) by assumption.
  rewrite (config_integrate g) by assumption.
  apply g_stats.
Qed.

Lemma config_addBody (mass : val) (position velocity : vec) (e : Engine) :
  g (snd (addBody mass position velocity e)) = g e.
Proof using g_bodies g_hash.
  unfold addBody. destruct (_ <=? _)%nat; [reflexivity|].
  cbv zeta. cbn [snd]. unfold updateSpatialHash. rewrite g_hash. apply g_bodies.
Qed.

Lemma config_removeBody (bodyId : nat) (e : Engine) :
  g (snd (removeBody bodyId e)) = g e.
Proof using g_bodies g_hash.
  unfold removeBody. destruct (list_find _ _) as [[index b]|]; [|reflexivity].
  cbn [snd]. unfold updateSpatialHash. rewrite g_hash. apply g_bodies.
Qed.

End ConfigTick.

Lemma valid_method_existsb (method : string) :
  existsb (String.eqb method) ["rk4"; "verlet"; "euler"]%string = true
  <-> valid_method method.
Proof.
  unfold valid_method. simpl. rewrite !orb_true_iff, !String.eqb_eq.
  split; [intros [H|[H|[H|H]]]; [tauto..|discriminate] | tauto].
Qed.

(** X16: the integration method is always one of the three names.
    [setIntegrationMethod] stores a name of the list and ignores any
    other, so it keeps the method valid, and so do [addBody], [removeBody],
    [update], [reset], [setTimeScale] and [setCollisionDetection]; the
    constructor's method is valid. *)
Theorem valid_method_kept
        (e : Engine) (mass : val) (position velocity : vec) (bodyId : nat)
        (deltaTime scale : val) (method : string) (enabled : bool) :
  valid_method (integrationMethod e) ->
  valid_method (integrationMethod PhysicsEngine.constructor) /\
  valid_method (integrationMethod (setIntegrationMethod method e)) /\
  (valid_method method ->
   integrationMethod (setIntegrationMethod method e) = method) /\
  (~ valid_method method -> setIntegrationMethod method e = e) /\
  valid_method (integrationMethod (snd (addBody mass position velocity e))) /\
  valid_method (integrationMethod (snd (removeBody bodyId e))) /\
  valid_method (integrationMethod (update deltaTime e)) /\
  valid_method (integrationMethod (reset e)) /\
  valid_method (integrationMethod (setTimeScale scale e)) /\
  valid_method (integrationMethod (setCollisionDetection enabled e)).
Proof.
  intros Hv.
  assert (Hrest :
    valid_method (integrationMethod (snd (addBody mass position velocity e))) /\
    valid_method (integrationMethod (snd (removeBody bodyId e))) /\
    valid_method (integrationMethod (update deltaTime e)) /\
    valid_method (integrationMethod (reset e)) /\
    valid_method (integrationMethod (setTimeScale scale e)) /\
    valid_method (integrationMethod (setCollisionDetection enabled e))).
  { rewrite (config_addBody integrationMethod) by reflexivity.
    rewrite (config_removeBody integrationMethod) by reflexivity.
    rewrite (config_update integrationMethod) by reflexivity.
    repeat split; exact Hv. }
  split; [left; reflexivity|].
  pose proof (valid_method_existsb method) as Hm.
  unfold setIntegrationMethod.
  destruct (existsb _ _).
  - assert (Hvalid : valid_method method) by (apply Hm; reflexivity).
    split; [exact Hvalid|]. split; [reflexivity|].
    split; [intros Hn; contradiction|exact Hrest].
  - assert (Hinvalid : ~ valid_method method).
    { intros Hvalid. apply Hm in Hvalid. discriminate. }
    split; [exact Hv|]. split; [intros Hvalid; contradiction|].
    split; [reflexivity|exact Hrest].
Qed.

Lemma valid_method_kept_witness :
  valid_method (integrationMethod PhysicsEngine.constructor) /\
  valid_method (integrationMethod (setIntegrationMethod "leapfrog" figure8)) /\
  (valid_method "leapfrog" ->
   integrationMethod (setIntegrationMethod "leapfrog" figure8) = "leapfrog"%string) /\
  (~ valid_method "leapfrog" -> setIntegrationMethod "leapfrog" figure8 = figure8) /\
  valid_method (integrationMethod (snd (addBody (Num 1) zero_vec zero_vec figure8))) /\
  valid_method (integrationMethod (snd (removeBody 0 figure8))) /\
  valid_method (integrationMethod (update (Num (1 / 60)) figure8)) /\
  valid_method (integrationMethod (reset figure8)) /\
  valid_method (integrationMethod (setTimeScale (Num 2) figure8)) /\
  valid_method (integrationMethod (setCollisionDetection true figure8)).
Proof.
  apply (valid_method_kept figure8 (Num 1) zero_vec zero_vec 0 (Num (1 / 60))
                           (Num 2) "leapfrog" true).
  left. reflexivity.
Defined.

(** X17: a tick leaves the configuration alone.  For every engine and
    [deltaTime], [update] changes none of [timeStep], [timeScale],
    [gravity], [softening], [integrationMethod], [maxBodies],
    [hashCellSize], [energyConservation], [collisionDetection] and
    [collisionRadius]. *)
Theorem update_keeps_configuration (deltaTime : val) (e : Engine) :
  timeStep (update deltaTime e) = timeStep e /\
  timeScale (update deltaTime e) = timeScale e /\
  gravity (update deltaTime e) = gravity e /\
  softening (update deltaTime e) = softening e /\
  integrationMethod (update deltaTime e) = integrationMethod e /\
  maxBodies (update deltaTime e) = maxBodies e /\
  hashCellSize (update deltaTime e) = hashCellSize e /\
  energyConservation (update deltaTime e) = energyConservation e /\
  collisionDetection (update deltaTime e) = collisionDetection e /\
  collisionRadius (update deltaTime e) = collisionRadius e.
Proof.
  repeat split; apply config_update; reflexivity.
Qed.

(** ** The force loop *)

Lemma forceCalculations_applyPair (e : Engine) (p : nat * nat) :
  (forceCalculations (stats (applyPair e p)) <= S (forceCalculations (stats e)))%nat.
Proof.
  unfold applyPair. rewrite calculateForceBetween_unfold.
  destruct (bodies e !! fst p) as [body1|]; [|lia].
  destruct (bodies e !! snd p) as [body2|]; [|lia].
  cbv zeta. destruct (jlt _ (softening e)); [lia|].
  simpl. lia.
Qed.

Lemma forceCalculations_schedule (l : list (nat * nat)) :
  forall e,
    (forceCalculations (stats (fold_left applyPair l e))
     <= forceCalculations (stats e) + length l)%nat.
Proof.
  induction l as [|p l IH]; intros e; simpl; [lia|].
  specialize (IH (applyPair e p)).
  pose proof (forceCalculations_applyPair e p). lia.
Qed.

(** X18: the force loop starts from scratch.  [calculateForces] zeroes the
    accelerations and the counter before it adds anything, so a second call
    gives the engine of the first: accelerations do not pile up over
    calls.  The counter it leaves is at most the number of calls the hash
    schedules, and with an empty hash every acceleration is zero. *)
Theorem calculateForces_idempotent (e : Engine) :
  calculateForces (calculateForces e) = calculateForces e /\
  (forceCalculations (stats (calculateForces e))
   <= length (forcePairs (spatialHash e)))%nat /\
  (spatialHash e = [] ->
   map acceleration (bodies (calculateForces e))
   = repeat zero_vec (length (bodies e))).
Proof.
  split; [|split].
  - rewrite (calculateForces_schedule (calculateForces e)).
    rewrite spatialHash_calculateForces.
    etransitivity; [|symmetry; apply calculateForces_schedule]. f_equal.
    set (rest := fun x : Engine => set_bodies (set_stats x zero_stats) []).
    assert (Hrest : rest (calculateForces e) = rest e)
      by (apply (config_calculateForces rest); reflexivity).
    assert (Hbodies :
      map (fun body => set_acceleration body zero_vec) (bodies (calculateForces e))
      = map (fun body => set_acceleration body zero_vec) (bodies e))
      by (apply frame_calculateForces; reflexivity).
    assert (Hstats :
      set_forceCalculations (stats (calculateForces e)) 0
      = set_forceCalculations (stats e) 0)
      by (apply (stats_calculateForces (fun s => set_forceCalculations s 0));
          reflexivity).
    change (set_bodies (set_stats (calculateForces e) ?s) ?l)
      with (set_bodies (set_stats (rest (calculateForces e)) s) l).
    rewrite Hrest, Hbodies, Hstats. reflexivity.
  - rewrite calculateForces_schedule.
    etransitivity; [apply forceCalculations_schedule|]. simpl. lia.
  - intros Hempty. rewrite calculateForces_schedule, Hempty. simpl.
    rewrite map_map. simpl.
    induction (bodies e) as [|b bs IH]; simpl; [reflexivity|].
    rewrite IH. reflexivity.
Qed.

(** ** Distances *)

(** X20: [distance] and [distanceSquared] do not depend on the order of
    their arguments, whatever the two objects hold, and are 0 for two
    equal positions of numbers. *)
Theorem distance_symmetric (p q : obj) (a b c : R) :
  distance p q = distance q p /\
  distanceSquared p q = distanceSquared q p /\
  distance (vec_of a b c) (vec_of a b c) = Num 0 /\
  distanceSquared (vec_of a b c) (vec_of a b c) = Num 0.
Proof.
  assert (Hsq : forall u v : val, ((u - v) * (u - v))%js = ((v - u) * (v - u))%js).
  { intros u v. destruct u, v; simpl; try reflexivity. f_equal. lra. }
  split; [apply distance_sym|].
  split.
  { unfold distanceSquared. cbv zeta.
    rewrite (Hsq (get_x p)), (Hsq (get_y p)), (Hsq (get_z p)). reflexivity. }
  split.
  - rewrite distance_vec_of.
    replace ((a - a) * (a - a) + (b - b) * (b - b) + (c - c) * (c - c))%R
      with 0%R by ring.
    rewrite sqrt_0. reflexivity.
  - unfold distanceSquared. simpl. f_equal. ring.
Qed.

(** ** Energy with [G] undefined *)

Lemma jadd_NaN_r (a : val) : (a + NaN)%js = NaN.
Proof. destruct a; reflexivity. Qed.

Lemma fold_jadd_NaN (l : list val) : fold_left jadd l NaN = NaN.
Proof. induction l as [|x l IH]; simpl; [reflexivity|exact IH]. Qed.

Lemma fold_jadd_In_NaN (l : list val) :
  In NaN l -> forall a, fold_left jadd l a = NaN.
Proof.
  induction l as [|x l IH]; intros Hin a; [destruct Hin|].
  simpl. destruct Hin as [->|Hin].
  - rewrite jadd_NaN_r. apply fold_jadd_NaN.
  - apply IH, Hin.
Qed.

Lemma fold_jadd_zeros (l : list val) :
  Forall (fun v => v = Num 0) l ->
  forall k : R, fold_left jadd l (Num k) = Num k.
Proof.
  induction 1 as [|x l -> _ IH]; intros k; simpl; [reflexivity|].
  replace (k + 0)%R with k by ring. apply IH.
Qed.

Lemma potential_term_guard (m1 m2 : val) (r1 r2 : obj) :
  gravitationalPotentialEnergy m1 m2 r1 r2
  = if jeq (distance r1 r2) (Num 0) then Num 0 else NaN.
Proof.
  unfold gravitationalPotentialEnergy. cbv zeta.
  destruct (jeq _ (Num 0)); reflexivity.
Qed.

Lemma potentialTerms_apart (l : list Body) :
  forall (i j : nat) (bi bj : Body),
    (i < j)%nat -> l !! i = Some bi -> l !! j = Some bj ->
    jeq (distance (position bi) (position bj)) (Num 0) = false ->
    In NaN (potentialTerms l).
Proof.
  induction l as [|b rest IH]; intros i j bi bj Hij Hi Hj Hfar; [discriminate|].
  simpl. apply in_or_app.
  destruct j as [|j]; [lia|]. simpl in Hj.
  destruct i as [|i]; simpl in Hi.
  - injection Hi as ->. left. apply in_map_iff. exists bj. split.
    + rewrite potential_term_guard, Hfar. reflexivity.
    + apply list_elem_of_In. apply (list_elem_of_lookup_2 _ _ _ Hj).
  - right. apply (IH i j bi bj); [lia|assumption..].
Qed.

Lemma potentialTerms_coincident (l : list Body) :
  (forall (i j : nat) (bi bj : Body),
      (i < j)%nat -> l !! i = Some bi -> l !! j = Some bj ->
      jeq (distance (position bi) (position bj)) (Num 0) = true) ->
  Forall (fun v => v = Num 0) (potentialTerms l).
Proof.
  induction l as [|b rest IH]; intros Hnear; simpl; [constructor|].
  apply Forall_app. split.
  - apply Forall_forall. intros v Hv.
    apply list_elem_of_In, in_map_iff in Hv. destruct Hv as (bj & <- & Hj).
    apply list_elem_of_In, list_elem_of_lookup_1 in Hj. destruct Hj as [j Hj].
    rewrite potential_term_guard, (Hnear 0%nat (S j) b bj);
      [reflexivity|lia|reflexivity|exact Hj].
  - apply IH. intros i j bi bj Hij Hi Hj.
    apply (Hnear (S i) (S j)); [lia|exact Hi|exact Hj].
Qed.

Lemma jadd_shape (a b : val) : (a + b)%js = NaN \/ exists k : R, (a + b)%js = Num k.
Proof. destruct a, b; simpl; eauto. Qed.

Lemma kinetic_sum_shape (l : list Body) :
  forall a : val,
    (a = NaN \/ exists k : R, a = Num k) ->
    fold_left (fun acc body => (acc + kineticEnergy (mass body) (velocity body))%js) l a
    = NaN \/
    exists k : R,
      fold_left (fun acc body => (acc + kineticEnergy (mass body) (velocity body))%js) l a
      = Num k.
Proof.
  induction l as [|b l IH]; intros a Ha; simpl; [exact Ha|].
  apply IH, jadd_shape.
Qed.

(** The total is NaN as soon as one pair fails the guard [distance === 0]
    of [gravitationalPotentialEnergy]. *)
Lemma totalEnergy_apart (bodies : list Body) (i j : nat) (bi bj : Body) :
  (i < j)%nat -> bodies !! i = Some bi -> bodies !! j = Some bj ->
  jeq (distance (position bi) (position bj)) (Num 0) = false ->
  totalEnergy bodies = NaN.
Proof.
  intros Hij Hi Hj Hfar. unfold totalEnergy. cbv zeta.
  rewrite potentialLoop_terms. apply fold_jadd_In_NaN.
  apply (potentialTerms_apart bodies i j bi bj); assumption.
Qed.

(** X22: the total energy with [G] undefined in the static helper.  If
    some pair of bodies fails the guard [distance === 0] of
    [gravitationalPotentialEnergy], the total is NaN.  If every pair passes
    it, the total is the sum of the bodies' [kineticEnergy], added up in
    list order from 0. *)
Theorem totalEnergy_without_G (bodies : list Body) :
  ((exists (i j : nat) (bi bj : Body),
       (i < j)%nat /\ bodies !! i = Some bi /\ bodies !! j = Some bj /\
       jeq (distance (position bi) (position bj)) (Num 0) = false) ->
   totalEnergy bodies = NaN) /\
  ((forall (i j : nat) (bi bj : Body),
       (i < j)%nat -> bodies !! i = Some bi -> bodies !! j = Some bj ->
       jeq (distance (position bi) (position bj)) (Num 0) = true) ->
   totalEnergy bodies
   = fold_left (fun acc body => (acc + kineticEnergy (mass body) (velocity body))%js)
               bodies (Num 0)).
Proof.
  split.
  - intros (i & j & bi & bj & Hij & Hi & Hj & Hfar).
    apply (totalEnergy_apart bodies i j bi bj); assumption.
  - intros Hnear. unfold totalEnergy. cbv zeta. rewrite potentialLoop_terms.
    pose proof (potentialTerms_coincident bodies Hnear) as Hzero.
    destruct (kinetic_sum_shape bodies (Num 0)) as [Hk|[k Hk]];
      [right; exists 0%R; reflexivity| |]; rewrite Hk.
    + apply fold_jadd_NaN.
    + apply fold_jadd_zeros, Hzero.
Qed.

(** X23: a NaN baseline sticks.  Once [initialEnergy] is NaN (what the
    first tracked tick stores for bodies at different positions), with
    energy tracking on every later tick keeps it NaN, and every tick that
    steps stores NaN as [energyError]. *)
Theorem energy_baseline_nan_sticks (deltaTime : val) (e : Engine) :
  energyConservation e = true ->
  initialEnergy e = NaN ->
  initialEnergy (update deltaTime e) = NaN /\
  (jle (deltaTime * timeScale e) (Num 0) = false ->
   energyError (stats (update deltaTime e)) = NaN).
Proof.
  intros Hon Hnan. unfold update. cbv zeta.
  destruct (jle _ (Num 0)); [split; [exact Hnan|discriminate]|].
  match goal with |- context [trackEnergyConservation ?x] => set (y := x) end.
  assert (Hcfg : forall {C} (g : Engine -> C),
             (forall e bs, g (set_bodies e bs) = g e) ->
             (forall e s, g (set_stats e s) = g e) ->
             (forall e h, g (set_spatialHash e h) = g e) ->
             g y = g e).
  { intros C g g_bodies g_stats g_hash. unfold y, updateSpatialHash.
    rewrite g_hash.
    match goal with |- context [if ?b then handleCollisions ?x else ?x] =>
      assert (Hc : g (if b then handleCollisions x else x) = g x)
        by (destruct b; [apply config_handleCollisions; assumption|reflexivity]);
      rewrite Hc; clear Hc end.
    rewrite (config_updateTrails g) by assumption.
    rewrite (config_integrate g) by assumption.
    apply g_stats. }
  assert (Hon' : energyConservation y = true)
    by (rewrite (Hcfg _ energyConservation); [exact Hon|reflexivity..]).
  assert (Hnan' : initialEnergy y = NaN)
    by (rewrite (Hcfg _ initialEnergy); [exact Hnan|reflexivity..]).
  clearbody y. unfold trackEnergyConservation.
  rewrite Hon', Hnan'. simpl.
  split; [exact Hnan'|]. intros _.
  destruct (totalEnergy (bodies y)); reflexivity.
Qed.

Lemma energy_baseline_nan_sticks_witness :
  initialEnergy (update (Num (1 / 60)) (set_initialEnergy figure8 NaN)) = NaN /\
  (jle (Num (1 / 60) * timeScale (set_initialEnergy figure8 NaN)) (Num 0) = false ->
   energyError (stats (update (Num (1 / 60)) (set_initialEnergy figure8 NaN))) = NaN).
Proof.
  apply (energy_baseline_nan_sticks (Num (1 / 60)) (set_initialEnergy figure8 NaN));
    reflexivity.
Defined.

(** ** The two explicit integrators *)


(** ** Presets *)

Lemma reset_update (deltaTime : val) (e : Engine) :
  reset (update deltaTime e) = reset e.
Proof. apply (config_update reset); reflexivity. Qed.

Lemma reset_ticks (deltaTimes : list val) :
  forall e, reset (fold_left (fun e dt => update dt e) deltaTimes e) = reset e.
Proof.
  induction deltaTimes as [|dt l IH]; intros e; simpl; [reflexivity|].
  rewrite IH. apply reset_update.
Qed.

Lemma reset_addBody (mass : val) (position velocity : vec) (e : Engine) :
  reset (snd (addBody mass position velocity e)) = reset e.
Proof. apply (config_addBody reset); reflexivity. Qed.

Lemma reset_loaded (presetName : string) (st : option string * Engine) :
  reset (snd (Presets.loadPreset presetName st)) = reset (snd st).
Proof.
  unfold Presets.loadPreset. cbv zeta. cbn [snd].
  assert (Hrr : reset (reset (snd st)) = reset (snd st)) by reflexivity.
  repeat match goal with |- context [if ?b then _ else _] => destruct b end;
    unfold Presets.loadFigure8, Presets.loadLagrange, Presets.loadChaos,
           Presets.loadOrbit; cbv zeta;
    rewrite ?reset_addBody; exact Hrr.
Qed.

Lemma ids_addBody (mass : val) (position velocity : vec) (e : Engine) :
  (length (bodies e) < maxBodies e)%nat ->
  map id (bodies (snd (addBody mass position velocity e)))
  = map id (bodies e) ++ [length (bodies e)].
Proof.
  intros Hroom. unfold addBody.
  destruct (Nat.leb_spec (maxBodies e) (length (bodies e))); [lia|].
  cbv zeta. cbn [snd]. rewrite bodies_updateSpatialHash. simpl.
  rewrite map_app. reflexivity.
Qed.

(** X27: a preset can be loaded again at any time.  [loadPreset] clears
    the engine before it adds its bodies, and no tick touches what [reset]
    keeps: so after a preset was loaded and any number of ticks were run,
    [reloadCurrentPreset] gives back the state [loadPreset] had produced.
    A known preset holds three bodies with the ids 0, 1 and 2 (when the
    engine has room for three), an unknown name none; in both cases the
    counters and the energy baseline are zeroed. *)
Theorem reloadCurrentPreset_restores
        (presetName : string) (st : option string * Engine) (deltaTimes : list val) :
  presetName <> ""%string ->
  (3 <= maxBodies (snd st))%nat ->
  Presets.reloadCurrentPreset
    (fst (Presets.loadPreset presetName st),
     fold_left (fun e dt => update dt e) deltaTimes
               (snd (Presets.loadPreset presetName st)))
  = Presets.loadPreset presetName st /\
  map id (bodies (snd (Presets.loadPreset presetName st)))
  = (if existsb (String.eqb presetName) ["figure8"; "lagrange"; "chaos"; "orbit"]%string
     then [0; 1; 2]%nat else []) /\
  stats (snd (Presets.loadPreset presetName st)) = zero_stats /\
  initialEnergy (snd (Presets.loadPreset presetName st)) = Num 0.
Proof.
  intros Hname Hroom. split.
  - destruct st as [current e].
    set (ticked := fold_left _ _ _).
    assert (Hreset : reset ticked = reset e).
    { unfold ticked. rewrite reset_ticks. apply (reset_loaded presetName (current, e)). }
    unfold Presets.reloadCurrentPreset.
    change (fst (fst (Presets.loadPreset presetName (current, e)), ticked))
      with (Some presetName).
    cbv beta iota.
    destruct (String.eqb_spec presetName "") as [Heq|_]; [contradiction|].
    unfold Presets.loadPreset. cbv zeta. cbn [snd]. rewrite Hreset. reflexivity.
  - unfold Presets.loadPreset. cbv zeta. cbn [snd existsb].
    assert (Hmax : maxBodies (reset (snd st)) = maxBodies (snd st)) by reflexivity.
    assert (Hthree : forall m1 p1 v1 m2 p2 v2 m3 p3 v3,
      let e3 := snd (addBody m3 p3 v3
                       (snd (addBody m2 p2 v2
                               (snd (addBody m1 p1 v1 (reset (snd st))))))) in
      map id (bodies e3) = [0; 1; 2]%nat /\ stats e3 = zero_stats /\
      initialEnergy e3 = Num 0).
    { intros. unfold e3. clear e3.
      set (e0 := reset (snd st)).
      set (e1 := snd (addBody m1 p1 v1 e0)).
      set (e2 := snd (addBody m2 p2 v2 e1)).
      assert (Hm1 : maxBodies e1 = maxBodies (snd st))
        by (unfold e1; rewrite maxBodies_addBody; exact Hmax).
      assert (Hm2 : maxBodies e2 = maxBodies (snd st))
        by (unfold e2; rewrite maxBodies_addBody; exact Hm1).
      assert (Hi1 : map id (bodies e1) = [0%nat] /\ length (bodies e1) = 1%nat).
      { assert (Hm0 : maxBodies e0 = maxBodies (snd st)) by reflexivity.
        assert (Hl0 : length (bodies e0) = 0%nat) by reflexivity.
        unfold e1. rewrite length_addBody, ids_addBody; rewrite Hm0, Hl0.
        - destruct (Nat.leb_spec (maxBodies (snd st)) 0); [lia|].
          split; reflexivity.
        - lia. }
      destruct Hi1 as [Hi1 Hl1].
      assert (Hi2 : map id (bodies e2) = [0; 1]%nat /\ length (bodies e2) = 2%nat).
      { unfold e2. rewrite length_addBody, ids_addBody; rewrite Hm1, Hl1.
        - destruct (Nat.leb_spec (maxBodies (snd st)) 1); [lia|].
          rewrite Hi1. split; reflexivity.
        - lia. }
      destruct Hi2 as [Hi2 Hl2].
      split; [|split].
      - rewrite ids_addBody by (rewrite Hm2, Hl2; lia).
        rewrite Hl2, Hi2. reflexivity.
      - unfold e2, e1.
        rewrite !(config_addBody stats) by reflexivity. reflexivity.
      - unfold e2, e1.
        rewrite !(config_addBody initialEnergy) by reflexivity. reflexivity. }
    destruct (String.eqb presetName "figure8");
      [apply Hthree|].
    destruct (String.eqb presetName "lagrange");
      [apply Hthree|].
    destruct (String.eqb presetName "chaos");
      [apply Hthree|].
    destruct (String.eqb presetName "orbit");
      [apply Hthree|].
    repeat split; reflexivity.
Qed.

Lemma reloadCurrentPreset_restores_witness :
  Presets.reloadCurrentPreset
    (fst (Presets.loadPreset "chaos" (None, PhysicsEngine.constructor)),
     fold_left (fun e dt => update dt e) [Num 1; Num 2]
               (snd (Presets.loadPreset "chaos" (None, PhysicsEngine.constructor))))
  = Presets.loadPreset "chaos" (None, PhysicsEngine.constructor) /\
  map id (bodies (snd (Presets.loadPreset "chaos" (None, PhysicsEngine.constructor))))
  = (if existsb (String.eqb "chaos") ["figure8"; "lagrange"; "chaos"; "orbit"]%string
     then [0; 1; 2]%nat else []) /\
  stats (snd (Presets.loadPreset "chaos" (None, PhysicsEngine.constructor))) = zero_stats /\
  initialEnergy (snd (Presets.loadPreset "chaos" (None, PhysicsEngine.constructor))) = Num 0.
Proof.
  apply (reloadCurrentPreset_restores "chaos" (None, PhysicsEngine.constructor)
                                      [Num 1; Num 2]).
  - discriminate.
  - simpl. lia.
Defined.

(** ** Static helpers that read instance constants *)

Lemma jmul_NaN_r (a : val) : (a * NaN)%js = NaN.
Proof. destruct a; reflexivity. Qed.

Lemma random_TWO_PI (u : val) : random u (Num 0) TWO_PI = NaN.
Proof. unfold random, TWO_PI. destruct u; reflexivity. Qed.

(** X30: the static helpers that read [this.G] and [this.TWO_PI].  Both
    reads give [undefined].  [gravitationalForce] returns the zero vector
    when its guard [distance === 0] holds (as for two equal positions of
    numbers) and a vector of three NaN whenever it does not, whatever the
    masses and positions; [randomVector] returns NaN for [x] and for [y]
    on every draw. *)
Theorem static_constants_undefined
        (m1 m2 u1 u2 u3 minMagnitude maxMagnitude : val) (r1 r2 : obj)
        (a b c : R) :
  gravitationalForce m1 m2 (vec_of a b c) (vec_of a b c) = zero_vec /\
  gravitationalForce m1 m2 r1 r2
    = (if jeq (magnitude (subtract r2 r1)) (Num 0) then zero_vec else nan_vec) /\
  vx (randomVector u1 u2 u3 minMagnitude maxMagnitude) = NaN /\
  vy (randomVector u1 u2 u3 minMagnitude maxMagnitude) = NaN.
Proof.
  split; [|split; [|split]].
  - unfold gravitationalForce. cbv zeta.
    rewrite subtract_vec_of, magnitude_vec_of.
    replace ((a - a) * (a - a) + (b - b) * (b - b) + (c - c) * (c - c))%R
      with 0%R by ring.
    rewrite sqrt_0, jeq_Num_true by reflexivity. reflexivity.
  - unfold gravitationalForce. cbv zeta.
    destruct (jeq _ (Num 0)); [reflexivity|].
    unfold multiply, nan_vec.
    change (G * m1 * m2 / _)%js with NaN.
    rewrite !jmul_NaN_r. reflexivity.
  - unfold randomVector, sphericalToCartesian. cbv zeta. cbn [vx].
    rewrite random_TWO_PI. apply jmul_NaN_r.
  - unfold randomVector, sphericalToCartesian. cbv zeta. cbn [vy].
    rewrite random_TWO_PI. apply jmul_NaN_r.
Qed.

(** * A stale hash, an undefined [G], and rounding *)

(** ** A close pair behind a stale spatial hash *)







(** ** The energy error of a bound pair *)






(** ** Conserved quantities and the order of the bodies *)

Section OrderOfBodies.

Import PrimFloat.

Lemma heavy_permutation : Permutation heavy_first heavy_last.
Proof.
  unfold heavy_first, heavy_last.
  apply perm_trans with [light_body 1; heavy_body; light_body 2].
  - apply perm_swap.
  - apply perm_skip, perm_swap.
Qed.

(** C9, as stated, fails on binary64 numbers: each addition of the two
    sums rounds, so the order of the bodies matters.  Three bodies at one
    position (no potential term) with one velocity and masses 2e16, 2 and
    2: with the heavy body first the energy is 1e16 and the angular
    momentum has magnitude 2e16, with the heavy body last they are
    1e16 + 2 and 2e16 + 4. *)
Lemma conserved_quantities_depend_on_order :
  Permutation heavy_first heavy_last /\
  Double.totalEnergy heavy_first = 1e16%float /\
  Double.totalEnergy heavy_last = 10000000000000002%float /\
  eqb (Double.totalEnergy heavy_last) (Double.totalEnergy heavy_first) = false /\
  Double.magnitude (Double.totalAngularMomentum heavy_first) = 2e16%float /\
  Double.magnitude (Double.totalAngularMomentum heavy_last)
    = 20000000000000004%float /\
  eqb (Double.magnitude (Double.totalAngularMomentum heavy_last))
      (Double.magnitude (Double.totalAngularMomentum heavy_first)) = false.
Proof.
  split; [exact heavy_permutation|].
  repeat split; vm_compute; reflexivity.
Qed.

Lemma figure8_double_NoDup : List.NoDup figure8_double.
Proof.
  apply (NoDup_map_inv Double.id). simpl.
  repeat constructor; simpl; intuition discriminate.
Qed.

(** C9: on the Figure-8 bodies the angular momentum does not depend on the
    order.  For each of the orders of the three bodies, [totalAngularMomentum]
    on binary64 numbers is the vector (0, 0, -1) of the original order, and
    its magnitude is 1: every product and sum involved is exact. *)
Theorem figure8_angular_momentum_any_order (l : list Double.Body) :
  Permutation figure8_double l ->
  Double.totalAngularMomentum l = Double.totalAngularMomentum figure8_double /\
  Double.magnitude (Double.totalAngularMomentum l)
    = Double.magnitude (Double.totalAngularMomentum figure8_double) /\
  eqb (Double.magnitude (Double.totalAngularMomentum l))
      (Double.magnitude (Double.totalAngularMomentum figure8_double)) = true /\
  Double.magnitude (Double.totalAngularMomentum l) = 1%float.
Proof.
  intros Hperm.
  pose proof (Permutation.Permutation_length Hperm) as Hlen.
  pose proof (Permutation.Permutation_NoDup Hperm figure8_double_NoDup) as Hnd.
  destruct l as [|a [|b [|c [|d l]]]]; try discriminate Hlen.
  assert (Ha : In a figure8_double)
    by (apply (Permutation.Permutation_in a (Permutation_sym Hperm)); simpl; auto).
  assert (Hb : In b figure8_double)
    by (apply (Permutation.Permutation_in b (Permutation_sym Hperm)); simpl; auto).
  assert (Hc : In c figure8_double)
    by (apply (Permutation.Permutation_in c (Permutation_sym Hperm)); simpl; auto).
  clear Hperm Hlen.
  apply List.NoDup_cons_iff in Hnd. destruct Hnd as [Hab Hnd].
  apply List.NoDup_cons_iff in Hnd. destruct Hnd as [Hbc _].
  simpl in Ha, Hb, Hc, Hab, Hbc.
  destruct Ha as [<-|[<-|[<-|[]]]];
    destruct Hb as [<-|[<-|[<-|[]]]];
    try (exfalso; apply Hab; auto; fail);
    destruct Hc as [<-|[<-|[<-|[]]]];
    try (exfalso; apply Hab; auto; fail);
    try (exfalso; apply Hbc; auto; fail);
    repeat split; vm_compute; reflexivity.
Qed.

Lemma figure8_angular_momentum_any_order_witness :
  Permutation figure8_double
    [Double.mkBody 2 1 (Double.mkVec 0 0 0) (Double.mkVec 0 0 0);
     Double.mkBody 0 1 (Double.mkVec (-1) 0 0) (Double.mkVec 0 0.5 0);
     Double.mkBody 1 1 (Double.mkVec 1 0 0) (Double.mkVec 0 (-0.5) 0)]%float /\
  Double.magnitude
    (Double.totalAngularMomentum
       [Double.mkBody 2 1 (Double.mkVec 0 0 0) (Double.mkVec 0 0 0);
        Double.mkBody 0 1 (Double.mkVec (-1) 0 0) (Double.mkVec 0 0.5 0);
        Double.mkBody 1 1 (Double.mkVec 1 0 0) (Double.mkVec 0 (-0.5) 0)]%float)
  = 1%float.
Proof.
  assert (Hperm : Permutation figure8_double
    [Double.mkBody 2 1 (Double.mkVec 0 0 0) (Double.mkVec 0 0 0);
     Double.mkBody 0 1 (Double.mkVec (-1) 0 0) (Double.mkVec 0 0.5 0);
     Double.mkBody 1 1 (Double.mkVec 1 0 0) (Double.mkVec 0 (-0.5) 0)]%float).
  { unfold figure8_double.
    eapply perm_trans; [apply perm_skip, perm_swap|]. apply perm_swap. }
  split; [exact Hperm|].
  apply (figure8_angular_momentum_any_order _ Hperm).
Defined.

End OrderOfBodies.
